(** * Warp account pool maintenance: a shallow embedding of
      [pool_maintenance.py] and [config.py], with the properties of the
      credential lifecycle checked against it.

    Conventions of the embedding.
    - Instants ([datetime.now()], [time.time()], the timestamp columns) are
      integers counting microseconds; a [timedelta] is a microsecond count.
      The range limits of Python's [datetime] are outside the model.
    - JSON documents are values of [pyval]. A float is [nan], an infinity
      or a rational number: the values of floats are exact; the rounding of
      float arithmetic, and its overflow to an infinity, are outside the
      model; the [OverflowError] of turning an integer that is too large
      into a float is inside it.
    - The outside world (clock, the two HTTP services, storage faults) is an
      [Env] of oracles indexed by a logical tick that advances at every
      blocking operation (HTTP call, SQL statement, sleep).
    - Python exceptions are values of [PyExn]; code that may raise runs in
      the state-and-exception monad [M]. *)

From Stdlib Require Import ZArith QArith List String Ascii Bool Lia DecimalString.
Import ListNotations.
Local Open Scope string_scope.
Local Open Scope Z_scope.

(** ** config.py *)

Module config.
Definition MIN_POOL_SIZE : Z := 25.
Definition MAX_POOL_SIZE : Z := 60.
Definition TOKEN_REFRESH_HOURS : Z := 1.
Definition MAINTENANCE_CHECK_INTERVAL : Z := 120.
Definition MIN_QUOTA_THRESHOLD : Z := 10.
End config.

(** ** Python values and exceptions *)

(** A Python [float]. *)
Inductive pyfloat : Type :=
| FNaN
| FInf (negative : bool)
| FFinite (q : Q).

#[warnings="-register-all"]
Inductive pyval : Type :=
| PNone
| PBool (b : bool)
| PInt (z : Z)
| PFloat (f : pyfloat)
| PStr (s : string)
| PList (l : list pyval)
| PDict (d : list (string * pyval)).

(** Subclasses of [Exception] that the modelled code can meet; the argument
    is what [str(e)] returns. *)
Inductive PyExn : Type :=
| AttributeError (msg : string)
| TypeError (msg : string)
| KeyError (msg : string)
| IndexError (msg : string)
| ValueError (msg : string)
| OperationalError (msg : string)
| RequestError (msg : string)
| OverflowError (msg : string).

Definition str_exn (e : PyExn) : string :=
  match e with
  | AttributeError m | TypeError m | KeyError m | IndexError m
  | ValueError m | OperationalError m | RequestError m | OverflowError m => m
  end.

(** A computation without side effects that may raise. *)
Definition result (A : Type) : Type := (PyExn + A)%type.

Definition type_name (v : pyval) : string :=
  match v with
  | PNone => "NoneType"
  | PBool _ => "bool"
  | PInt _ => "int"
  | PFloat _ => "float"
  | PStr _ => "str"
  | PList _ => "list"
  | PDict _ => "dict"
  end.

(** [bool(v)] *)
Definition truthy (v : pyval) : bool :=
  match v with
  | PNone => false
  | PBool b => b
  | PInt z => negb (z =? 0)
  | PFloat (FFinite q) => negb (Qeq_bool q 0)
  | PFloat _ => true
  | PStr s => negb (s =? "")%string
  | PList l => match l with [] => false | _ => true end
  | PDict d => match d with [] => false | _ => true end
  end.

Fixpoint lookup (k : string) (d : list (string * pyval)) : option pyval :=
  match d with
  | [] => None
  | (k', v) :: d' => if (k' =? k)%string then Some v else lookup k d'
  end.

Definition no_attribute (v : pyval) (attr : string) : PyExn :=
  AttributeError ("'" ++ type_name v ++ "' object has no attribute '" ++ attr ++ "'").

(** [v.get(k, default)] *)
Definition py_get (v : pyval) (k : string) (default : pyval) : result pyval :=
  match v with
  | PDict d => inr (match lookup k d with Some x => x | None => default end)
  | _ => inl (no_attribute v "get")
  end.

(** [k in v] for a string [k] *)
Definition py_in (k : string) (v : pyval) : result bool :=
  match v with
  | PDict d => inr (match lookup k d with Some _ => true | None => false end)
  | PList l =>
      inr (existsb (fun x => match x with PStr s => (s =? k)%string | _ => false end) l)
  | PStr s => inr (match index 0 k s with Some _ => true | None => false end)
  | _ => inl (TypeError ("argument of type '" ++ type_name v ++ "' is not iterable"))
  end.

(** [v[k]] for a string key [k] *)
Definition py_getitem_str (v : pyval) (k : string) : result pyval :=
  match v with
  | PDict d => match lookup k d with
               | Some x => inr x
               | None => inl (KeyError ("'" ++ k ++ "'"))
               end
  | PList _ => inl (TypeError "list indices must be integers or slices, not str")
  | PStr _ => inl (TypeError "string indices must be integers, not 'str'")
  | _ => inl (TypeError ("'" ++ type_name v ++ "' object is not subscriptable"))
  end.

(** [v[0]] *)
Definition py_getitem_0 (v : pyval) : result pyval :=
  match v with
  | PList (x :: _) => inr x
  | PList [] => inl (IndexError "list index out of range")
  | PStr (String c _) => inr (PStr (String c EmptyString))
  | PStr EmptyString => inl (IndexError "string index out of range")
  | PDict _ => inl (KeyError "0")
  | _ => inl (TypeError ("'" ++ type_name v ++ "' object is not subscriptable"))
  end.

(** The integer a value stands for in arithmetic ([bool] is a subclass of
    [int]); [None] for operands on which [-] raises [TypeError]. *)
Definition as_int (v : pyval) : option Z :=
  match v with
  | PInt z => Some z
  | PBool b => Some (if b then 1 else 0)
  | _ => None
  end.

(** A Python number: an [int] (a [bool] counts as one) or a [float]. *)
Inductive pynum : Type :=
| NInt (z : Z)
| NFloat (f : pyfloat).

Definition as_num (v : pyval) : option pynum :=
  match v with
  | PInt z => Some (NInt z)
  | PBool b => Some (NInt (if b then 1 else 0))
  | PFloat f => Some (NFloat f)
  | _ => None
  end.

(** The least magnitude of an integer that no float can hold: halfway
    between the largest float and [2^1024]. *)
Definition float_limit : Z := 2 ^ 1024 - 2 ^ 970.

(** The float an [int] operand is turned into when the other operand is a
    [float]. *)
Definition float_of_int (z : Z) : result pyfloat :=
  if float_limit <=? Z.abs z
  then inl (OverflowError "int too large to convert to float")
  else inr (FFinite (inject_Z z)).

(** [a - b] on floats. *)
Definition float_sub (a b : pyfloat) : pyfloat :=
  match a, b with
  | FNaN, _ | _, FNaN => FNaN
  | FInf s, FInf s' => if Bool.eqb s s' then FNaN else FInf s
  | FInf s, FFinite _ => FInf s
  | FFinite _, FInf s => FInf (negb s)
  | FFinite x, FFinite y => FFinite (x - y)
  end.

(** [a - b] on numbers. *)
Definition num_sub (a b : pynum) : result pynum :=
  match a, b with
  | NInt x, NInt y => inr (NInt (x - y))
  | NInt x, NFloat g =>
      match float_of_int x with
      | inr f => inr (NFloat (float_sub f g))
      | inl e => inl e
      end
  | NFloat f, NInt y =>
      match float_of_int y with
      | inr g => inr (NFloat (float_sub f g))
      | inl e => inl e
      end
  | NFloat f, NFloat g => inr (NFloat (float_sub f g))
  end.

(** [a - b] *)
Definition py_sub (a b : pyval) : result pynum :=
  match as_num a, as_num b with
  | Some x, Some y => num_sub x y
  | _, _ => inl (TypeError ("unsupported operand type(s) for -: '" ++ type_name a
                              ++ "' and '" ++ type_name b ++ "'"))
  end.

(** [a <= n] and [a < n] for an [int] [n]; Python compares a float with an
    [int] exactly, and [nan] compares false. *)
Definition num_le_int (a : pynum) (n : Z) : bool :=
  match a with
  | NInt x => x <=? n
  | NFloat FNaN => false
  | NFloat (FInf negative) => negative
  | NFloat (FFinite q) => Qle_bool q (inject_Z n)
  end.

Definition num_lt_int (a : pynum) (n : Z) : bool :=
  match a with
  | NInt x => x <? n
  | NFloat FNaN => false
  | NFloat (FInf negative) => negative
  | NFloat (FFinite q) => negb (Qle_bool (inject_Z n) q)
  end.

(** The float [time.time()] returns when the clock stands at [now]
    microseconds. *)
Definition seconds_of (now : Z) : pyfloat := FFinite (Qmake now 1000000).

(** [bool(s)] for an optional string ([None] or a [str]), and the string
    such a value holds when it is true. *)
Definition truthy_str (s : option string) : bool :=
  match s with
  | Some s => negb (s =? "")%string
  | None => false
  end.

Definition str_of (s : option string) : string :=
  match s with
  | Some s => s
  | None => ""
  end.

Definition string_of_Z (z : Z) : string := NilZero.string_of_int (Z.to_int z).

(** ** Strings *)

(** [s.split(sep)] for a one-character separator. *)
Fixpoint split (sep : ascii) (s : string) : list string :=
  match s with
  | EmptyString => [EmptyString]
  | String c rest =>
      if Ascii.eqb c sep then EmptyString :: split sep rest
      else match split sep rest with
           | hd :: tl => String c hd :: tl
           | [] => [String c EmptyString]
           end
  end.

(** [c * n] for a one-character string *)
Fixpoint repeat_char (c : ascii) (n : nat) : string :=
  match n with
  | O => EmptyString
  | S n' => String c (repeat_char c n')
  end.

Definition microseconds_per_second : Z := 1000000.

(** [timedelta(hours=h)] and [timedelta(days=d)] *)
Definition timedelta_hours (h : Z) : Z := h * 3600 * microseconds_per_second.
Definition timedelta_days (d : Z) : Z := d * 86400 * microseconds_per_second.

(** ** Data model *)

Record Account : Type := mkAccount {
  id : option Z;
  email : string;
  email_password : option string;
  local_id : string;
  id_token : string;
  refresh_token : string;
  status : string;
  created_at : option Z;
  last_used : option Z;
  last_refresh_time : option Z;
  use_count : Z;
  proxy_info : option string;
  user_agent : option string
}.

Definition set_status (s : string) (a : Account) : Account :=
  mkAccount (id a) (email a) (email_password a) (local_id a) (id_token a)
            (refresh_token a) s (created_at a) (last_used a)
            (last_refresh_time a) (use_count a) (proxy_info a) (user_agent a).

Definition set_id_token (tok : string) (now : Z) (a : Account) : Account :=
  mkAccount (id a) (email a) (email_password a) (local_id a) tok
            (refresh_token a) (status a) (created_at a) (last_used a)
            (Some now) (use_count a) (proxy_info a) (user_agent a).

Definition set_tokens (tok rtok : string) (now : Z) (a : Account) : Account :=
  mkAccount (id a) (email a) (email_password a) (local_id a) tok
            rtok (status a) (created_at a) (last_used a)
            (Some now) (use_count a) (proxy_info a) (user_agent a).

(** ** The [accounts] relation and the SQL statements run on it.
    The table is the list of its rows in rowid order. *)

Definition Table : Type := list Account.

(** [UPDATE accounts SET ... WHERE email = ?] *)
Definition sql_update (e : string) (f : Account -> Account) (t : Table) : Table :=
  map (fun r => if (email r =? e)%string then f r else r) t.

(** [SELECT * FROM accounts WHERE status = ?] *)
Definition sql_select_status (s : string) (t : Table) : Table :=
  filter (fun r => (status r =? s)%string) t.

(** [SELECT * FROM accounts WHERE email = ?] followed by [fetchone()] *)
Definition sql_select_email (e : string) (t : Table) : option Account :=
  find (fun r => (email r =? e)%string) t.

(** [WHERE status = 'expired' AND last_refresh_time < ?]; a NULL
    [last_refresh_time] compares to NULL, which is not true. *)
Definition purge_condition (cutoff : Z) (r : Account) : bool :=
  (status r =? "expired")%string &&
  match last_refresh_time r with
  | Some t => t <? cutoff
  | None => false
  end.

(** [DELETE FROM accounts WHERE ...]: the remaining table and [rowcount]. *)
Definition sql_delete_expired (cutoff : Z) (t : Table) : Table * Z :=
  (filter (fun r => negb (purge_condition cutoff r)) t,
   Z.of_nat (List.length (filter (purge_condition cutoff) t))).

(** [SELECT status, COUNT( * ) FROM accounts GROUP BY status], then
    [SELECT COUNT( * ) FROM accounts] stored under the key [total]. *)
Fixpoint dict_incr (k : string) (d : list (string * Z)) : list (string * Z) :=
  match d with
  | [] => [(k, 1)]
  | (k', n) :: d' => if (k' =? k)%string then (k', n + 1) :: d'
                     else (k', n) :: dict_incr k d'
  end.

Fixpoint dict_set (k : string) (v : Z) (d : list (string * Z)) : list (string * Z) :=
  match d with
  | [] => [(k, v)]
  | (k', n) :: d' => if (k' =? k)%string then (k', v) :: d'
                     else (k', n) :: dict_set k v d'
  end.

Fixpoint dict_get (k : string) (d : list (string * Z)) (default : Z) : Z :=
  match d with
  | [] => default
  | (k', n) :: d' => if (k' =? k)%string then n else dict_get k d' default
  end.

Definition sql_statistics (t : Table) : list (string * Z) :=
  dict_set "total" (Z.of_nat (List.length t))
           (fold_left (fun d r => dict_incr (status r) d) t []).

(** ** The outside world *)

(** What [response.json()] of the token endpoint yields, read through
    [data.get('id_token')] and [data.get('refresh_token')]: each field is a
    JSON string, or absent. *)
Record TokenBody : Type := mkTokenBody {
  body_id_token : option string;
  body_refresh_token : option string
}.

Record RefreshResponse : Type := mkRefreshResponse {
  refresh_status_code : Z;
  refresh_text : string;
  refresh_json : result TokenBody
}.

Record QuotaResponse : Type := mkQuotaResponse {
  quota_status_code : Z;
  quota_json : result pyval
}.

(** [decode_payload s] stands for
    [json.loads(base64.urlsafe_b64decode(s).decode('utf-8'))]. The other
    fields say what the world answers to an interaction made at a given
    tick: the two clocks, [requests.post] on the token endpoint (by exchange
    secret), [client.post] on the quota endpoint (by bearer token), and the
    exception, if any, that an SQL statement meets. *)
Record Env : Type := mkEnv {
  decode_payload : string -> result pyval;
  time_time : nat -> Z;
  datetime_now : nat -> Z;
  requests_post : nat -> string -> result RefreshResponse;
  client_post : nat -> string -> result QuotaResponse;
  db_fault : nat -> option PyExn
}.

(** Interactions with the outside, in the order they are attempted. *)
Inductive Event : Type :=
| EvGetAll (status : option string)
| EvGetByEmail (email : string)
| EvUpdateToken (email id_token : string) (refresh_token : option string)
| EvUpdateStatus (email status : string)
| EvStatistics
| EvCleanup (days : Z)
| EvRefreshPost (refresh_token : string)
| EvQuotaPost (id_token : string)
| EvSleep (seconds : Z)
| EvRunning (flag : bool).

Record World : Type := mkWorld {
  accounts : Table;
  ticks : nat;
  log : list Event
}.

(** ** State and exceptions *)

Definition M (A : Type) : Type := World -> result A * World.

Definition ret {A : Type} (a : A) : M A := fun w => (inr a, w).

Definition raise {A : Type} (e : PyExn) : M A := fun w => (inl e, w).

Definition bind {A B : Type} (m : M A) (k : A -> M B) : M B :=
  fun w => match m w with
           | (inr a, w') => k a w'
           | (inl e, w') => (inl e, w')
           end.

(** [try: m except Exception as e: h e] *)
Definition try_except {A : Type} (m : M A) (h : PyExn -> M A) : M A :=
  fun w => match m w with
           | (inr a, w') => (inr a, w')
           | (inl e, w') => h e w'
           end.

Definition rbind {A B : Type} (r : result A) (k : A -> result B) : result B :=
  match r with
  | inr a => k a
  | inl e => inl e
  end.

Declare Scope py_scope.
Delimit Scope py_scope with py.
Notation "x <- m ;; k" := (bind m (fun x => k))
  (at level 100, m at next level, right associativity) : py_scope.
Notation "m ;; k" := (bind m (fun _ => k))
  (at level 100, right associativity) : py_scope.
Notation "'let?' x := r 'in' k" := (rbind r (fun x => k))
  (at level 100, x name, r at next level, right associativity) : py_scope.
Local Open Scope py_scope.

Definition emit (ev : Event) : M unit :=
  fun w => (inr tt, mkWorld (accounts w) (ticks w) (log w ++ [ev])).

(** A blocking operation takes place at the current tick and moves the
    world to the next one. *)
Definition advance : M nat :=
  fun w => (inr (ticks w), mkWorld (accounts w) (S (ticks w)) (log w)).

Definition current_tick : M nat := fun w => (inr (ticks w), w).

Definition get_table : M Table := fun w => (inr (accounts w), w).

Definition put_table (t : Table) : M unit :=
  fun w => (inr tt, mkWorld t (ticks w) (log w)).

(** The world after a blocking operation [ev] that leaves the table [t]. *)
Definition after_statement (ev : Event) (t : Table) (w : World) : World :=
  mkWorld t (S (ticks w)) (log w ++ [ev]).

(** [await asyncio.sleep(seconds)] *)
Definition asyncio_sleep (seconds : Z) : M unit :=
  emit (EvSleep seconds);; _ <- advance;; ret tt.

Record Counts : Type := mkCounts {
  healthy_count : Z;
  low_quota_count : Z;
  failed_count : Z
}.

(** How one iteration of the [for] loop leaves its [try] block: through
    [continue], or by falling through to the pacing sleep. *)
Inductive LoopExit : Type := Continue | FallThrough.

(** The dictionary [_get_request_limit] returns. *)
Inductive QuotaInfo : Type :=
| QuotaSuccess (requestLimit requestsUsed : pyval) (requestsRemaining : pynum)
| QuotaFailure (error : pyval).

Section Services.

Variable env : Env.

(** ** DatabaseManager *)

(** Every method opens a connection and runs one statement; a storage
    fault raises before anything is written. *)
Definition sql_statement (ev : Event) : M nat :=
  emit ev;;
  t <- advance;;
  match db_fault env t with
  | Some e => raise e
  | None => ret t
  end.

Definition get_all_accounts (status : option string) : M (list Account) :=
  _ <- sql_statement (EvGetAll status);;
  t <- get_table;;
  ret (match status with
       | Some s => if (s =? "")%string then t else sql_select_status s t
       | None => t
       end).

Definition get_account_by_email (email : string) : M (option Account) :=
  _ <- sql_statement (EvGetByEmail email);;
  t <- get_table;;
  ret (sql_select_email email t).

Definition update_account_token (email id_token : string)
    (refresh_token : option string) : M unit :=
  now <- sql_statement (EvUpdateToken email id_token refresh_token);;
  t <- get_table;;
  if truthy_str refresh_token then
    put_table (sql_update email
                 (set_tokens id_token (str_of refresh_token) (datetime_now env now)) t)
  else
    put_table (sql_update email (set_id_token id_token (datetime_now env now)) t).

Definition update_account_status (email status : string) : M unit :=
  _ <- sql_statement (EvUpdateStatus email status);;
  t <- get_table;;
  put_table (sql_update email (set_status status) t).

Definition get_statistics : M (list (string * Z)) :=
  _ <- sql_statement EvStatistics;;
  t <- get_table;;
  ret (sql_statistics t).

Definition cleanup_expired_accounts (days : Z) : M Z :=
  now <- sql_statement (EvCleanup days);;
  t <- get_table;;
  let cutoff_date := datetime_now env now - timedelta_days days in
  let '(t', deleted_count) := sql_delete_expired cutoff_date t in
  put_table t';;
  ret deleted_count.

Definition cleanup_default_days : Z := 30.

(** ** TokenRefreshService *)

Definition is_token_expired_default_buffer : Z := 10.

(** The body of the [try] block of [is_token_expired], with [now] the value
    of [time.time()]. *)
Definition is_token_expired_try (now : Z) (id_token : string)
    (buffer_minutes : Z) : result bool :=
  if (id_token =? "")%string then inr true else
  let parts := split "." id_token in
  if negb (Nat.eqb (List.length parts) 3) then inr true else
  let payload_part := nth 1 parts "" in
  let payload_part :=
    payload_part ++ repeat_char "=" (4 - Nat.modulo (String.length payload_part) 4) in
  let? payload := decode_payload env payload_part in
  let? exp_timestamp := py_get payload "exp" PNone in
  if negb (truthy exp_timestamp) then inr true else
  let? left := py_sub exp_timestamp (PFloat (seconds_of now)) in
  inr (num_le_int left (buffer_minutes * 60)).

Definition is_token_expired_at (now : Z) (id_token : string)
    (buffer_minutes : Z) : bool :=
  match is_token_expired_try now id_token buffer_minutes with
  | inr b => b
  | inl _ => true
  end.

Definition is_token_expired (id_token : string) (buffer_minutes : Z) : M bool :=
  t <- current_tick;;
  ret (is_token_expired_at (time_time env t) id_token buffer_minutes).

(** [can_refresh_token], with [now] the value of [datetime.now()]. *)
Definition can_refresh_token_at (now : Z) (account : Account) : bool :=
  match last_refresh_time account with
  | None => true
  | Some last =>
      let time_elapsed := now - last in
      timedelta_hours config.TOKEN_REFRESH_HOURS <=? time_elapsed
  end.

Definition can_refresh_token (account : Account) : M bool :=
  t <- current_tick;;
  ret (can_refresh_token_at (datetime_now env t) account).

(** [response.ok]: no 4xx or 5xx status. *)
Definition response_ok (r : RefreshResponse) : bool :=
  negb ((400 <=? refresh_status_code r) && (refresh_status_code r <? 600)).

(** What [refresh_firebase_token] returns for an outcome of
    [requests.post]. *)
Definition refresh_outcome (posted : result RefreshResponse)
    : bool * option string * option string :=
  match posted with
  | inl e => (false, None, Some (str_exn e))
  | inr response =>
      if response_ok response then
        match refresh_json response with
        | inl e => (false, None, Some (str_exn e))
        | inr data => (true, body_id_token data, body_refresh_token data)
        end
      else (false, None,
            Some ("HTTP " ++ string_of_Z (refresh_status_code response)
                    ++ ": " ++ refresh_text response))
  end.

Definition refresh_firebase_token (refresh_token : string)
    : M (bool * option string * option string) :=
  emit (EvRefreshPost refresh_token);;
  t <- advance;;
  ret (refresh_outcome (requests_post env t refresh_token)).

Definition refresh_account_if_needed (account : Account) : M bool :=
  expired <- is_token_expired (id_token account) is_token_expired_default_buffer;;
  if negb expired then ret true else
  can <- can_refresh_token account;;
  if negb can then ret true else
  r <- refresh_firebase_token (refresh_token account);;
  let '(success, new_id_token, new_refresh_token) := r in
  if success && truthy_str new_id_token then
    update_account_token (email account) (str_of new_id_token) new_refresh_token;;
    ret true
  else
    update_account_status (email account) "expired";;
    ret false.

(** ** PoolMaintainer *)

Definition check_pool_health : M unit :=
  _ <- get_statistics;;
  ret tt.

(** [result.get("data", {}).get("user", {}).get("user", {}).get("requestLimitInfo")] *)
Definition limit_info_of (json : pyval) : result pyval :=
  let? data := py_get json "data" (PDict []) in
  let? user := py_get data "user" (PDict []) in
  let? user' := py_get user "user" (PDict []) in
  py_get user' "requestLimitInfo" PNone.

(** What [_get_request_limit] computes from the outcome of [client.post],
    inside its [try] block. *)
Definition read_request_limit (posted : result QuotaResponse) : result QuotaInfo :=
  let? response := posted in
  if quota_status_code response =? 200 then
    let? result := quota_json response in
    let? has_errors := py_in "errors" result in
    if has_errors then
      let? errors := py_getitem_str result "errors" in
      let? first := py_getitem_0 errors in
      let? message := py_get first "message" (PStr "GraphQL error") in
      inr (QuotaFailure message)
    else
      let? limit_info := limit_info_of result in
      if truthy limit_info then
        let? requestLimit := py_get limit_info "requestLimit" (PInt 0) in
        let? requestsUsed := py_get limit_info "requestsUsedSinceLastRefresh" (PInt 0) in
        let? requestsRemaining := py_sub requestLimit requestsUsed in
        inr (QuotaSuccess requestLimit requestsUsed requestsRemaining)
      else
        inr (QuotaFailure (PStr ("HTTP " ++ string_of_Z (quota_status_code response))))
  else
    inr (QuotaFailure (PStr ("HTTP " ++ string_of_Z (quota_status_code response)))).

(** The [try] statement of [_get_request_limit] for a call made at tick
    [t]: an exception becomes a failure carrying [str(e)]. *)
Definition quota_answer (t : nat) (id_token : string) : QuotaInfo :=
  match read_request_limit (client_post env t id_token) with
  | inr info => info
  | inl e => QuotaFailure (PStr (str_exn e))
  end.

Definition _get_request_limit (id_token : string) : M QuotaInfo :=
  if (id_token =? "")%string then ret (QuotaFailure (PStr "缺少ID Token")) else
  emit (EvQuotaPost id_token);;
  t <- advance;;
  ret (quota_answer t id_token).


Definition count_healthy (c : Counts) : Counts :=
  mkCounts (healthy_count c + 1) (low_quota_count c) (failed_count c).

Definition count_low_quota (c : Counts) : Counts :=
  mkCounts (healthy_count c) (low_quota_count c + 1) (failed_count c).

Definition count_failed (c : Counts) : Counts :=
  mkCounts (healthy_count c) (low_quota_count c) (failed_count c + 1).

(** Second half of the [try] block of [verify_accounts]: fetch the row
    again, query the quota and settle the status. *)
Definition check_quota (account : Account) (c : Counts) : M (Counts * LoopExit) :=
  current_account <- get_account_by_email (email account);;
  match current_account with
  | None => ret (count_failed c, Continue)
  | Some current_account =>
      if (id_token current_account =? "")%string then ret (count_failed c, Continue)
      else
        quota_info <- _get_request_limit (id_token current_account);;
        match quota_info with
        | QuotaSuccess _ _ remaining =>
            if num_lt_int remaining config.MIN_QUOTA_THRESHOLD then
              update_account_status (email account) "expired";;
              ret (count_low_quota c, FallThrough)
            else ret (count_healthy c, FallThrough)
        | QuotaFailure _ =>
            update_account_status (email account) "expired";;
            ret (count_failed c, FallThrough)
        end
  end.

(** The [try] block of [verify_accounts]. *)
Definition verify_try (account : Account) (c : Counts) : M (Counts * LoopExit) :=
  is_token_valid <- refresh_account_if_needed account;;
  if negb is_token_valid then ret (count_failed c, Continue)
  else check_quota account c.

(** Its [except Exception] handler. *)
Definition verify_except (account : Account) (c : Counts) (e : PyExn)
    : M (Counts * LoopExit) :=
  update_account_status (email account) "expired";;
  ret (count_failed c, FallThrough).

(** One iteration of the [for] loop: the [try] statement, then the pacing
    sleep unless the block was left through [continue]. *)
Definition verify_account (account : Account) (c : Counts) : M Counts :=
  r <- try_except (verify_try account c) (verify_except account c);;
  match r with
  | (c', Continue) => ret c'
  | (c', FallThrough) => asyncio_sleep 1;; ret c'
  end.

Fixpoint verify_loop (accounts : list Account) (c : Counts) : M Counts :=
  match accounts with
  | [] => ret c
  | account :: rest =>
      c' <- verify_account account c;;
      verify_loop rest c'
  end.

(** [verify_accounts] returns the three counters it logs at the end, and
    [None] when it returns early for want of active accounts. *)
Definition verify_accounts : M (option Counts) :=
  accounts <- get_all_accounts (Some "active");;
  match accounts with
  | [] => ret None
  | _ =>
      c <- verify_loop accounts (mkCounts 0 0 0);;
      ret (Some c)
  end.

Definition cleanup : M unit :=
  _ <- cleanup_expired_accounts 7;;
  ret tt.

(** The [try] statement of [maintenance_loop]. *)
Definition maintenance_cycle (cycle : Z) : M unit :=
  try_except
    (check_pool_health;;
     _ <- verify_accounts;;
     if cycle mod 10 =? 0 then cleanup else ret tt)
    (fun _ => ret tt).

(** [self.running], as the loop finds it when it looks at a given tick. *)
Variable running : nat -> bool.

Definition read_running : M bool :=
  t <- current_tick;;
  emit (EvRunning (running t));;
  ret (running t).

(** [maintenance_loop], started with the counter [cycle]. The result is
    [true] when the [while] loop was left, [false] when [fuel] iterations
    were not enough to see it end. *)
Fixpoint maintenance_loop_from (fuel : nat) (cycle : Z) : M bool :=
  match fuel with
  | O => ret false
  | S fuel' =>
      flag <- read_running;;
      if flag then
        let cycle := cycle + 1 in
        maintenance_cycle cycle;;
        asyncio_sleep config.MAINTENANCE_CHECK_INTERVAL;;
        maintenance_loop_from fuel' cycle
      else ret true
  end.

Definition maintenance_loop (fuel : nat) : M bool := maintenance_loop_from fuel 0.

End Services.

(** ** Auxiliary definitions for the statements *)

(** The middle segment of a token, padded as [is_token_expired] pads it. *)
Definition payload_part_of (id_token : string) : string :=
  let payload_part := nth 1 (split "." id_token) "" in
  payload_part ++ repeat_char "=" (4 - Nat.modulo (String.length payload_part) 4).

Definition with_id_token (tok : string) (a : Account) : Account :=
  mkAccount (id a) (email a) (email_password a) (local_id a) tok
            (refresh_token a) (status a) (created_at a) (last_used a)
            (last_refresh_time a) (use_count a) (proxy_info a) (user_agent a).

(** What the verification pass may do when [listed] holds of the e-mails it
    was given: list the active rows, read or write a listed row, call the
    two services, sleep. The only status it may write is [expired]. *)
Definition event_within (listed : string -> Prop) (ev : Event) : Prop :=
  match ev with
  | EvGetAll s => s = Some "active"
  | EvGetByEmail e => listed e
  | EvUpdateToken e _ _ => listed e
  | EvUpdateStatus e s => s = "expired" /\ listed e
  | EvRefreshPost _ | EvQuotaPost _ | EvSleep _ => True
  | EvStatistics | EvCleanup _ | EvRunning _ => False
  end.

(** A row after the pass: same identity, status kept or turned to
    [expired], and nothing changed at all unless its e-mail is listed. *)
Definition row_within (listed : string -> Prop) (r r' : Account) : Prop :=
  id r' = id r /\ email r' = email r /\
  (status r' = status r \/ status r' = "expired") /\
  (~ listed (email r) -> r' = r).

Definition within (listed : string -> Prop) (w w' : World) : Prop :=
  (exists evs : list Event,
     log w' = (log w ++ evs)%list /\ Forall (event_within listed) evs) /\
  Forall2 (row_within listed) (accounts w) (accounts w').

Definition stays_within {A : Type} (listed : string -> Prop) (m : M A) : Prop :=
  forall w, within listed w (snd (m w)).

(** The e-mails of the rows that are [active] in [w]. *)
Definition listed_active (w : World) (e : string) : Prop :=
  exists a, In a (accounts w) /\ status a = "active" /\ email a = e.

(** Progress of a computation that does not look at the running flag:
    time does not go back and the log grows by events other than a read of
    the flag. *)
Definition not_flag_read (ev : Event) : Prop :=
  match ev with
  | EvRunning _ => False
  | _ => True
  end.

Definition runs_on (w w' : World) : Prop :=
  (ticks w <= ticks w')%nat /\
  exists evs : list Event, log w' = (log w ++ evs)%list /\ Forall not_flag_read evs.

Definition uninterrupted {A : Type} (m : M A) : Prop :=
  forall w, runs_on w (snd (m w)).

(** The world after the loop has read the running flag as [b]. *)
Definition flag_read (b : bool) (w : World) : World :=
  mkWorld (accounts w) (ticks w) (log w ++ [EvRunning b]).

(** The figures [check_pool_health] reads out of the statistics and logs,
    and whether it logs the shortage warning. *)
Record HealthReport : Type := mkHealthReport {
  report_total : Z;
  report_active : Z;
  report_expired : Z;
  report_blocked : Z;
  report_warning : bool
}.

Definition pool_health (stats : list (string * Z)) : HealthReport :=
  let total := dict_get "total" stats 0 in
  let active := dict_get "active" stats 0 in
  let expired := dict_get "expired" stats 0 in
  let blocked := dict_get "blocked" stats 0 in
  mkHealthReport total active expired blocked (active <? config.MIN_POOL_SIZE).

(** Number of rows of a table with a given status. *)
Definition count_status (s : string) (t : Table) : Z :=
  Z.of_nat (List.length (sql_select_status s t)).

(** The number of credentials a set of counters accounts for. *)
Definition total_count (c : Counts) : Z :=
  healthy_count c + low_quota_count c + failed_count c.

(** [m] adds to the log only events that satisfy [P]. *)
Definition emits {A : Type} (P : Event -> Prop) (m : M A) : Prop :=
  forall w, exists evs : list Event,
    log (snd (m w)) = (log w ++ evs)%list /\ Forall P evs.

(** What cycle number [cycle] of the maintenance loop may do: purge, with a
    window of 7 days, only if [cycle] is a multiple of 10; sleep only the
    pacing second; never look at the running flag. *)
Definition cycle_event (cycle : Z) (ev : Event) : Prop :=
  match ev with
  | EvCleanup days => days = 7 /\ cycle mod 10 = 0
  | EvSleep seconds => seconds = 1
  | EvRunning _ => False
  | _ => True
  end.

(** ** Example data *)

(** A decoder that agrees with base64url and JSON on two payloads,
    [{exp: 2000}] and [{sub: u}], and rejects everything else. *)
Definition example_decode (s : string) : result pyval :=
  if (s =? "eyJleHAiOjIwMDB9====")%string then inr (PDict [("exp", PInt 2000)])
  else if (s =? "eyJzdWIiOiJ1In0=")%string then inr (PDict [("sub", PStr "u")])
  else inl (ValueError "Invalid base64-encoded string").

Definition token_exp_2000 : string := "h.eyJleHAiOjIwMDB9.s".
Definition token_no_exp : string := "h.eyJzdWIiOiJ1In0.s".

Definition no_refresh_service (_ : nat) (_ : string) : result RefreshResponse :=
  inl (RequestError "connection refused").

Definition no_quota_service (_ : nat) (_ : string) : result QuotaResponse :=
  inl (RequestError "connection refused").

Definition no_fault (_ : nat) : option PyExn := None.

(** A world whose clocks stand at [now], with no service reachable and a
    storage that never fails. *)
Definition quiet_env (now : Z) : Env :=
  mkEnv example_decode (fun _ => now) (fun _ => now)
        no_refresh_service no_quota_service no_fault.

(** [r'] is [r] up to the status column. *)
Definition same_up_to_status (r r' : Account) : Prop :=
  r' = set_status (status r') r.

Definition example_account (mail tok st : string) (last : option Z) : Account :=
  mkAccount (Some 1) mail None "local" tok "secret" st None None last 0 None None.

Definition day : Z := 86400 * microseconds_per_second.

(** Two expired rows, last refreshed ten and three days before [now]. *)
Definition purge_now : Z := 100 * day.
Definition row_10_days : Account :=
  example_account "old@example.com" "" "expired" (Some (purge_now - 10 * day)).
Definition row_3_days : Account :=
  example_account "recent@example.com" "" "expired" (Some (purge_now - 3 * day)).
Definition purge_world : World := mkWorld [row_10_days; row_3_days] 0 [].

(** A world in which the quota endpoint always gives the same answer. *)
Definition quota_env (answer : result QuotaResponse) : Env :=
  mkEnv example_decode (fun _ => 0) (fun _ => 0)
        no_refresh_service (fun _ _ => answer) no_fault.

(** HTTP 200 with the empty JSON object. *)
Definition empty_answer : QuotaResponse := mkQuotaResponse 200 (inr (PDict [])).

(** HTTP 200 with a [requestLimitInfo] that carries neither [requestLimit]
    nor [requestsUsedSinceLastRefresh]. *)
Definition fieldless_answer : QuotaResponse :=
  mkQuotaResponse 200
    (inr (PDict [("data", PDict [("user", PDict [("user",
            PDict [("requestLimitInfo",
                    PDict [("nextRefreshTime", PStr "2025-01-01")])])])])])).

Definition empty_world : World := mkWorld [] 0 [].

(** A world with a fixed clock and the given services and storage faults. *)
Definition world_env (now : Z)
    (refresh : nat -> string -> result RefreshResponse)
    (quota : nat -> string -> result QuotaResponse)
    (fault : nat -> option PyExn) : Env :=
  mkEnv example_decode (fun _ => now) (fun _ => now) refresh quota fault.

(** The quota endpoint answering 401, as it does to a stale token. *)
Definition quota_unauthorized (_ : nat) (_ : string) : result QuotaResponse :=
  inr (mkQuotaResponse 401 (inl (ValueError "Expecting value"))).

(** The quota endpoint reporting [used] requests out of [limit]. *)
Definition quota_reports (limit used : Z) (_ : nat) (_ : string)
    : result QuotaResponse :=
  inr (mkQuotaResponse 200
    (inr (PDict [("data", PDict [("user", PDict [("user",
            PDict [("requestLimitInfo",
                    PDict [("requestLimit", PInt limit);
                           ("requestsUsedSinceLastRefresh", PInt used)])])])])]))).

(** The token endpoint rejecting the exchange secret. *)
Definition refresh_rejected (_ : nat) (_ : string) : result RefreshResponse :=
  inr (mkRefreshResponse 400 "INVALID_REFRESH_TOKEN" (inl (ValueError "Expecting value"))).

Definition minute : Z := 60 * microseconds_per_second.

(** An active account whose token no longer parses and which was refreshed
    one minute before the clock of [cooldown_env]. *)
Definition cooling_account : Account :=
  example_account "cooling@example.com" "stale" "active" (Some 0).
Definition cooldown_env : Env :=
  world_env minute no_refresh_service quota_unauthorized no_fault.
Definition cooldown_world : World := mkWorld [cooling_account] 0 [].

(** An active account with a stale token that was never refreshed. *)
Definition stale_account : Account :=
  example_account "stale@example.com" "stale" "active" None.
Definition rejecting_env : Env :=
  world_env minute refresh_rejected no_quota_service no_fault.
Definition stale_world : World := mkWorld [stale_account] 0 [].

(** An active account with a token valid until second 2000, seen at second
    1000, with 9 requests left out of 150. *)
Definition fresh_account : Account :=
  example_account "fresh@example.com" token_exp_2000 "active" None.
Definition low_quota_env : Env :=
  world_env (1000 * microseconds_per_second) no_refresh_service
            (quota_reports 150 141) no_fault.
Definition fresh_world : World := mkWorld [fresh_account] 0 [].

(** An expired and a blocked row next to the active [fresh_account]. *)
Definition expired_row : Account :=
  example_account "gone@example.com" "" "expired" (Some 0).
Definition blocked_row : Account :=
  example_account "blocked@example.com" "stale" "blocked" None.
Definition mixed_world : World :=
  mkWorld [fresh_account; expired_row; blocked_row] 0 [].

(** A storage that answers the first statement and is locked from then on. *)
Definition locked_after_listing (t : nat) : option PyExn :=
  match t with
  | O => None
  | S _ => Some (OperationalError "database is locked")
  end.
Definition locked_env : Env :=
  world_env (1000 * microseconds_per_second) no_refresh_service
            (quota_reports 150 10) locked_after_listing.
Definition other_account : Account :=
  example_account "other@example.com" token_exp_2000 "active" None.
Definition two_accounts_world : World :=
  mkWorld [fresh_account; other_account] 0 [].

(** A running flag that is up at tick 0 and down from tick 1 on: shutdown
    is requested while the first cycle is under way. *)
Definition stopped_during_first_cycle (t : nat) : bool := Nat.eqb t 0.

(** A storage that is locked at tick 1 only. *)
Definition locked_once (t : nat) : option PyExn :=
  if Nat.eqb t 1 then Some (OperationalError "database is locked") else None.
Definition locked_once_env : Env :=
  world_env (1000 * microseconds_per_second) no_refresh_service
            (quota_reports 150 10) locked_once.

(** One row of each status. *)
Definition one_of_each : World :=
  mkWorld [fresh_account; expired_row; blocked_row] 0 [].

(** A decoder that knows the payload [{exp: 0}] only. *)
Definition decode_exp_zero (s : string) : result pyval :=
  if (s =? "eyJleHAiOjB9====")%string then inr (PDict [("exp", PInt 0)])
  else inl (ValueError "Invalid base64-encoded string").
Definition exp_zero_env : Env :=
  mkEnv decode_exp_zero (fun _ => 0) (fun _ => 0)
        no_refresh_service no_quota_service no_fault.
Definition token_exp_zero : string := "h.eyJleHAiOjB9.s".

(** The token endpoint issuing a new bearer token and no new exchange
    secret. *)
Definition refresh_grants (_ : nat) (_ : string) : result RefreshResponse :=
  inr (mkRefreshResponse 200 "" (inr (mkTokenBody (Some "renewed") None))).
Definition granting_env : Env :=
  world_env minute refresh_grants (quota_reports 150 10) no_fault.

(** The quota endpoint answering with a GraphQL error envelope. *)
Definition graphql_error_answer : QuotaResponse :=
  mkQuotaResponse 200
    (inr (PDict [("errors", PList [PDict [("message", PStr "Unauthorized")]]);
                 ("data", PNone)])).

(** A flag that is never taken down. *)
Definition always_running (_ : nat) : bool := true.



(** HTTP 200 with [data] null. *)
Definition null_data_answer : QuotaResponse :=
  mkQuotaResponse 200 (inr (PDict [("data", PNone)])).

(** The same account with exactly [MIN_QUOTA_THRESHOLD] requests left. *)
Definition enough_quota_env : Env :=
  world_env (1000 * microseconds_per_second) no_refresh_service
            (quota_reports 150 140) no_fault.

(** ** Properties *)

Section PureProperties.





(** C7. [can_refresh_token] answers [true] exactly when the account was
    never refreshed or the time since [last_refresh_time] is at least
    [TOKEN_REFRESH_HOURS] hours; inside the cooldown window it answers
    [false] whatever the bearer token is. *)
Theorem can_refresh_token_cooldown (now : Z) (account : Account) :
  (can_refresh_token_at now account = true <->
     last_refresh_time account = None \/
     exists last, last_refresh_time account = Some last /\
                  timedelta_hours config.TOKEN_REFRESH_HOURS <= now - last) /\
  (forall last tok,
     last_refresh_time account = Some last ->
     now - last < timedelta_hours config.TOKEN_REFRESH_HOURS ->
     can_refresh_token_at now (with_id_token tok account) = false).
Proof.
  unfold can_refresh_token_at. split.
  - destruct (last_refresh_time account) as [last|] eqn:Hlast.
    + rewrite Z.leb_le. split.
      * intros Hle. right. exists last. split; [reflexivity|exact Hle].
      * intros [Hnone | [last' [Heq Hle]]]; [discriminate|].
        injection Heq as <-. exact Hle.
    + split; [intros _; left; reflexivity | reflexivity].
  - intros last tok Hlast Hlt. cbn [with_id_token last_refresh_time].
    rewrite Hlast. apply Z.leb_gt. exact Hlt.
Qed.

Lemma can_refresh_token_cooldown_witness :
  last_refresh_time (example_account "a@example.com" token_exp_2000 "active" (Some 0))
    = Some 0 /\
  1800 * microseconds_per_second - 0 < timedelta_hours config.TOKEN_REFRESH_HOURS /\
  can_refresh_token_at (1800 * microseconds_per_second)
    (with_id_token "x"
       (example_account "a@example.com" token_exp_2000 "active" (Some 0))) = false.
Proof.
  split; [reflexivity|]. split; [reflexivity|].
  apply (proj2 (can_refresh_token_cooldown (1800 * microseconds_per_second)
           (example_account "a@example.com" token_exp_2000 "active" (Some 0))) 0 "x").
  - reflexivity.
  - reflexivity.
Defined.

End PureProperties.

(** ** Credential Store *)

Section Store.

Variable env : Env.



End Store.


(** ** Quota Inspector *)

Section QuotaInspector.

Variable env : Env.

Ltac case_rbind H :=
  repeat match type of H with
         | context [match ?x with _ => _ end] =>
             destruct x eqn:?; try discriminate H
         | context [if ?x then _ else _] =>
             destruct x eqn:?; try discriminate H
         end.

Lemma read_request_limit_success (posted : result QuotaResponse)
    (requestLimit requestsUsed : pyval) (remaining : pynum) :
  read_request_limit posted = inr (QuotaSuccess requestLimit requestsUsed remaining) ->
  py_sub requestLimit requestsUsed = inr remaining.
Proof.
  unfold read_request_limit, rbind. intros H.
  case_rbind H.
  injection H as <- <- <-. assumption.
Qed.

Lemma py_sub_ints (a b : pyval) (x y : Z) (r : pynum) :
  py_sub a b = inr r -> as_int a = Some x -> as_int b = Some y -> r = NInt (x - y).
Proof.
  unfold py_sub. intros H Ha Hb.
  destruct a; try discriminate Ha; destruct b; try discriminate Hb;
    cbn in *; injection Ha as <-; injection Hb as <-; injection H as <-;
    reflexivity.
Qed.

(** C2 (as the code has it). An empty token gives the failure
    [缺少ID Token] (missing ID token) at once, the world untouched: no
    network call. Any other token costs exactly one call. For an HTTP 200
    answer without [errors], what
    [result.get("data", {}).get("user", {}).get("user", {}).get("requestLimitInfo")]
    does decides: if it raises (a member on the way is null or not an
    object) the failure carries the text of the exception; if it yields
    nothing, null or an empty value the failure is [HTTP 200]; if it yields
    a non-empty value that is not an object the failure carries the text of
    the [AttributeError]; if it yields a non-empty object, each counter
    missing from it counts as 0 and the answer is a success whose remaining
    allowance is the limit minus the used count, or, if that subtraction
    raises, a failure with the text of the exception. *)
Theorem get_request_limit_outcomes :
  (forall w,
     _get_request_limit env "" w = (inr (QuotaFailure (PStr "缺少ID Token")), w)) /\
  (forall id_token w, id_token <> "" ->
     _get_request_limit env id_token w
       = (inr (quota_answer env (ticks w) id_token),
          mkWorld (accounts w) (S (ticks w)) (log w ++ [EvQuotaPost id_token]))) /\
  (forall t id_token response result,
     client_post env t id_token = inr response ->
     quota_status_code response = 200 ->
     quota_json response = inr result ->
     py_in "errors" result = inr false ->
     (forall e, limit_info_of result = inl e ->
        quota_answer env t id_token = QuotaFailure (PStr (str_exn e))) /\
     (forall limit_info,
        limit_info_of result = inr limit_info -> truthy limit_info = false ->
        quota_answer env t id_token = QuotaFailure (PStr "HTTP 200")) /\
     (forall limit_info,
        limit_info_of result = inr limit_info -> truthy limit_info = true ->
        (forall d, limit_info <> PDict d) ->
        quota_answer env t id_token
          = QuotaFailure (PStr (str_exn (no_attribute limit_info "get")))) /\
     (forall d,
        limit_info_of result = inr (PDict d) -> d <> [] ->
        let requestLimit :=
          match lookup "requestLimit" d with Some v => v | None => PInt 0 end in
        let requestsUsed :=
          match lookup "requestsUsedSinceLastRefresh" d with
          | Some v => v
          | None => PInt 0
          end in
        quota_answer env t id_token
          = match py_sub requestLimit requestsUsed with
            | inr remaining => QuotaSuccess requestLimit requestsUsed remaining
            | inl e => QuotaFailure (PStr (str_exn e))
            end)) /\
  (forall t id_token requestLimit requestsUsed remaining,
     quota_answer env t id_token
       = QuotaSuccess requestLimit requestsUsed remaining ->
     py_sub requestLimit requestsUsed = inr remaining /\
     (forall limit used,
        as_int requestLimit = Some limit -> as_int requestsUsed = Some used ->
        remaining = NInt (limit - used))).
Proof.
  split; [reflexivity|].
  split.
  { intros id_token w Hne. apply String.eqb_neq in Hne.
    unfold _get_request_limit. rewrite Hne. reflexivity. }
  split.
  { intros t id_token response result Hpost Hcode Hjson Hin.
    assert (Hrun : quota_answer env t id_token
                   = match
                       (let? limit_info := limit_info_of result in
                        if truthy limit_info then
                          let? requestLimit :=
                            py_get limit_info "requestLimit" (PInt 0) in
                          let? requestsUsed :=
                            py_get limit_info "requestsUsedSinceLastRefresh" (PInt 0) in
                          let? requestsRemaining := py_sub requestLimit requestsUsed in
                          inr (QuotaSuccess requestLimit requestsUsed requestsRemaining)
                        else inr (QuotaFailure (PStr "HTTP 200")))
                     with
                     | inr info => info
                     | inl e => QuotaFailure (PStr (str_exn e))
                     end).
    { unfold quota_answer, read_request_limit. rewrite Hpost. cbn [rbind].
      rewrite Hcode, Hjson. cbn [rbind Z.eqb Pos.eqb]. rewrite Hin.
      reflexivity. }
    rewrite Hrun. clear Hrun.
    split; [intros e He; rewrite He; reflexivity|].
    split; [intros li Hli Hfalsy; rewrite Hli; cbn [rbind]; rewrite Hfalsy;
            reflexivity|].
    split.
    - intros li Hli Htruthy Hnd. rewrite Hli. cbn [rbind]. rewrite Htruthy.
      destruct li; try reflexivity. exfalso. exact (Hnd d eq_refl).
    - intros d Hli Hne. rewrite Hli. cbn [rbind].
      destruct d as [|kv d']; [contradiction Hne; reflexivity|].
      cbn [truthy py_get rbind].
      destruct (py_sub _ _); reflexivity. }
  intros t id_token requestLimit requestsUsed remaining Hsuccess.
  assert (Hsub : py_sub requestLimit requestsUsed = inr remaining).
  { unfold quota_answer in Hsuccess.
    destruct (read_request_limit (client_post env t id_token)) as [e|info] eqn:Hread;
      [discriminate Hsuccess|].
    subst info. exact (read_request_limit_success _ _ _ _ Hread). }
  split; [exact Hsub|].
  intros limit used Hl Hu. exact (py_sub_ints _ _ _ _ _ Hsub Hl Hu).
Qed.

End QuotaInspector.

Lemma get_request_limit_outcomes_witness :
  client_post (quota_env (inr null_data_answer)) 0 "token" = inr null_data_answer /\
  quota_status_code null_data_answer = 200 /\
  quota_answer (quota_env (inr null_data_answer)) 0 "token"
    = QuotaFailure (PStr "'NoneType' object has no attribute 'get'").
Proof.
  split; [reflexivity|]. split; [reflexivity|].
  refine (proj1 (proj1 (proj2 (proj2
            (get_request_limit_outcomes (quota_env (inr null_data_answer)))))
            0%nat "token" null_data_answer (PDict [("data", PNone)])
            eq_refl eq_refl eq_refl eq_refl)
            (no_attribute PNone "get") eq_refl).
Defined.

(** C2 as stated does not hold: an HTTP 200 answer without the quota fields
    is reported as [HTTP 200], not as a malformed response, and one whose
    [requestLimitInfo] merely lacks the two counters is reported as a
    success with 0 remaining. *)
Lemma malformed_response_counterexample :
  fst (_get_request_limit (quota_env (inr empty_answer)) "token" empty_world)
    = inr (QuotaFailure (PStr "HTTP 200")) /\
  QuotaFailure (PStr "HTTP 200") <> QuotaFailure (PStr "malformed response") /\
  fst (_get_request_limit (quota_env (inr fieldless_answer)) "token" empty_world)
    = inr (QuotaSuccess (PInt 0) (PInt 0) (NInt 0)).
Proof.
  split; [reflexivity|]. split; [discriminate|reflexivity].
Qed.

(** ** Running the monad *)

Lemma bind_ok {A B : Type} (m : M A) (k : A -> M B) (w w' : World) (a : A) :
  m w = (inr a, w') -> bind m k w = k a w'.
Proof. intros H. unfold bind. rewrite H. reflexivity. Qed.

Lemma bind_raises {A B : Type} (m : M A) (k : A -> M B) (w w' : World) (e : PyExn) :
  m w = (inl e, w') -> bind m k w = (inl e, w').
Proof. intros H. unfold bind. rewrite H. reflexivity. Qed.

Section Steps.

Variable env : Env.

Lemma sql_statement_ok (ev : Event) (w : World) :
  db_fault env (ticks w) = None ->
  sql_statement env ev w = (inr (ticks w), after_statement ev (accounts w) w).
Proof.
  intros H. unfold sql_statement, bind, emit, advance, ret. cbn.
  rewrite H. reflexivity.
Qed.

Lemma sql_statement_fault (ev : Event) (w : World) (e : PyExn) :
  db_fault env (ticks w) = Some e ->
  sql_statement env ev w = (inl e, after_statement ev (accounts w) w).
Proof.
  intros H. unfold sql_statement, bind, emit, advance, raise. cbn.
  rewrite H. reflexivity.
Qed.

Lemma update_account_status_ok (mail st : string) (w : World) :
  db_fault env (ticks w) = None ->
  update_account_status env mail st w
    = (inr tt, after_statement (EvUpdateStatus mail st)
                 (sql_update mail (set_status st) (accounts w)) w).
Proof.
  intros H. unfold update_account_status.
  rewrite (bind_ok _ _ _ _ _ (sql_statement_ok _ w H)). reflexivity.
Qed.

Lemma update_account_status_fault (mail st : string) (w : World) (e : PyExn) :
  db_fault env (ticks w) = Some e ->
  update_account_status env mail st w
    = (inl e, after_statement (EvUpdateStatus mail st) (accounts w) w).
Proof.
  intros H. unfold update_account_status.
  rewrite (bind_raises _ _ _ _ _ (sql_statement_fault _ w e H)). reflexivity.
Qed.

Lemma update_account_token_ok (mail tok : string) (rt : option string) (w : World) :
  db_fault env (ticks w) = None ->
  update_account_token env mail tok rt w
    = (inr tt,
       after_statement (EvUpdateToken mail tok rt)
         (sql_update mail
            (if truthy_str rt
             then set_tokens tok (str_of rt) (datetime_now env (ticks w))
             else set_id_token tok (datetime_now env (ticks w)))
            (accounts w)) w).
Proof.
  intros H. unfold update_account_token.
  rewrite (bind_ok _ _ _ _ _ (sql_statement_ok _ w H)).
  destruct (truthy_str rt); reflexivity.
Qed.

Lemma update_account_token_fault (mail tok : string) (rt : option string)
    (w : World) (e : PyExn) :
  db_fault env (ticks w) = Some e ->
  update_account_token env mail tok rt w
    = (inl e, after_statement (EvUpdateToken mail tok rt) (accounts w) w).
Proof.
  intros H. unfold update_account_token.
  rewrite (bind_raises _ _ _ _ _ (sql_statement_fault _ w e H)). reflexivity.
Qed.

Lemma get_account_by_email_ok (mail : string) (w : World) :
  db_fault env (ticks w) = None ->
  get_account_by_email env mail w
    = (inr (sql_select_email mail (accounts w)),
       after_statement (EvGetByEmail mail) (accounts w) w).
Proof.
  intros H. unfold get_account_by_email.
  rewrite (bind_ok _ _ _ _ _ (sql_statement_ok _ w H)). reflexivity.
Qed.

Lemma get_account_by_email_fault (mail : string) (w : World) (e : PyExn) :
  db_fault env (ticks w) = Some e ->
  get_account_by_email env mail w
    = (inl e, after_statement (EvGetByEmail mail) (accounts w) w).
Proof.
  intros H. unfold get_account_by_email.
  rewrite (bind_raises _ _ _ _ _ (sql_statement_fault _ w e H)). reflexivity.
Qed.

Lemma get_request_limit_call (id_token : string) (w : World) :
  id_token <> "" ->
  _get_request_limit env id_token w
    = (inr (quota_answer env (ticks w) id_token),
       after_statement (EvQuotaPost id_token) (accounts w) w).
Proof.
  intros Hne. apply String.eqb_neq in Hne.
  unfold _get_request_limit. rewrite Hne. reflexivity.
Qed.

Lemma refresh_not_expired (account : Account) (w : World) :
  is_token_expired_at env (time_time env (ticks w)) (id_token account)
    is_token_expired_default_buffer = false ->
  refresh_account_if_needed env account w = (inr true, w).
Proof.
  intros H. unfold refresh_account_if_needed, is_token_expired, bind,
    current_tick, ret. cbn. rewrite H. reflexivity.
Qed.


End Steps.

(** ** Verification of one credential *)

Section OneCredential.

Variable env : Env.


Lemma sql_update_status_frame (mail st : string) (t : Table) :
  Forall2 (fun r r' =>
             same_up_to_status r r' /\
             (email r = mail -> status r' = st) /\
             (email r <> mail -> r' = r))
          t (sql_update mail (set_status st) t).
Proof.
  induction t as [|r t IH]; cbn; constructor; [|exact IH].
  destruct (email r =? mail)%string eqn:Heq.
  - apply String.eqb_eq in Heq. repeat split.
    intros Hne. contradiction.
  - apply String.eqb_neq in Heq. split; [destruct r; reflexivity|].
    split; [intros He; contradiction | reflexivity].
Qed.


Lemma refresh_call (rt : string) (w : World) :
  refresh_firebase_token env rt w
    = (inr (refresh_outcome (requests_post env (ticks w) rt)),
       after_statement (EvRefreshPost rt) (accounts w) w).
Proof. reflexivity. Qed.

Lemma refresh_when_due (account : Account) (w : World) :
  is_token_expired_at env (time_time env (ticks w)) (id_token account)
    is_token_expired_default_buffer = true ->
  can_refresh_token_at (datetime_now env (ticks w)) account = true ->
  refresh_account_if_needed env account w
    = (let '(success, new_id_token, new_refresh_token) :=
         refresh_outcome (requests_post env (ticks w) (refresh_token account)) in
       if success && truthy_str new_id_token then
         update_account_token env (email account) (str_of new_id_token)
                              new_refresh_token;;
         ret true
       else
         update_account_status env (email account) "expired";;
         ret false)
        (after_statement (EvRefreshPost (refresh_token account)) (accounts w) w).
Proof.
  intros He Hc. unfold refresh_account_if_needed, is_token_expired,
    can_refresh_token.
  unfold bind at 1. unfold bind at 1. cbn [current_tick ret].
  rewrite He. cbn [negb].
  unfold bind at 1. unfold bind at 1. cbn [current_tick ret].
  rewrite Hc. cbn [negb].
  rewrite (bind_ok _ _ _ _ _ (refresh_call _ w)). reflexivity.
Qed.

(** C4. When the refresh call of an expired, refreshable credential fails,
    the iteration writes [expired] for it and nothing else: every row keeps
    its tokens and all other columns, only the status of the rows of that
    e-mail changes; the credential is counted as failed and neither the
    quota endpoint nor the pacing sleep is reached. *)
Theorem refresh_failure_marks_expired (account : Account) (c : Counts) (w : World)
    (success : bool) (new_id_token message : option string) :
  is_token_expired_at env (time_time env (ticks w)) (id_token account)
    is_token_expired_default_buffer = true ->
  can_refresh_token_at (datetime_now env (ticks w)) account = true ->
  refresh_outcome (requests_post env (ticks w) (refresh_token account))
    = (success, new_id_token, message) ->
  success && truthy_str new_id_token = false ->
  db_fault env (S (ticks w)) = None ->
  let table := sql_update (email account) (set_status "expired") (accounts w) in
  verify_account env account c w
    = (inr (count_failed c),
       mkWorld table (S (S (ticks w)))
               ((log w ++ [EvRefreshPost (refresh_token account)])
                  ++ [EvUpdateStatus (email account) "expired"])) /\
  Forall2 (fun r r' =>
             id_token r' = id_token r /\ refresh_token r' = refresh_token r /\
             same_up_to_status r r' /\
             (email r = email account -> status r' = "expired") /\
             (email r <> email account -> r' = r))
          (accounts w) table.
Proof.
  intros He Hc Hout Hfail Hfault table. split.
  - unfold verify_account, verify_try, try_except.
    unfold bind at 1. unfold bind at 1.
    rewrite (refresh_when_due account w He Hc), Hout, Hfail.
    rewrite (bind_ok _ _ _ _ _
               (update_account_status_ok env _ _ (after_statement _ _ w) Hfault)).
    reflexivity.
  - eapply Forall2_impl; [|apply sql_update_status_frame].
    intros r r' [Hsame [Hset Hkeep]].
    split; [exact (f_equal id_token Hsame)|].
    split; [exact (f_equal refresh_token Hsame)|].
    split; [exact Hsame|]. split; assumption.
Qed.

(** C5. Once the quota check is reached and answers with a successful
    result: with [remaining >= MIN_QUOTA_THRESHOLD] the healthy counter goes
    up by one, the other counters stay and no row is written; with
    [remaining < MIN_QUOTA_THRESHOLD] the status of the credential is written
    as [expired] and the low-quota counter goes up by one, the other
    counters staying. *)
Theorem quota_threshold_decides (account row : Account) (c : Counts) (w : World)
    (requestLimit requestsUsed : pyval) (remaining : Z) :
  db_fault env (ticks w) = None ->
  sql_select_email (email account) (accounts w) = Some row ->
  id_token row <> "" ->
  quota_answer env (S (ticks w)) (id_token row)
    = QuotaSuccess requestLimit requestsUsed (NInt remaining) ->
  let checked :=
    after_statement (EvQuotaPost (id_token row)) (accounts w)
      (after_statement (EvGetByEmail (email account)) (accounts w) w) in
  (config.MIN_QUOTA_THRESHOLD <= remaining ->
     check_quota env account c w
       = (inr (mkCounts (healthy_count c + 1) (low_quota_count c) (failed_count c),
               FallThrough),
          checked) /\
     accounts checked = accounts w) /\
  (remaining < config.MIN_QUOTA_THRESHOLD ->
     db_fault env (S (S (ticks w))) = None ->
     check_quota env account c w
       = (inr (mkCounts (healthy_count c) (low_quota_count c + 1) (failed_count c),
               FallThrough),
          after_statement (EvUpdateStatus (email account) "expired")
            (sql_update (email account) (set_status "expired") (accounts w))
            checked) /\
     Forall2 (fun r r' => email r = email account -> status r' = "expired")
       (accounts w)
       (sql_update (email account) (set_status "expired") (accounts w))).
Proof.
  intros Hfault Hrow Hne Hquota checked.
  assert (Hrun : check_quota env account c w
                 = (if remaining <? config.MIN_QUOTA_THRESHOLD then
                      update_account_status env (email account) "expired";;
                      ret (count_low_quota c, FallThrough)
                    else ret (count_healthy c, FallThrough)) checked).
  { unfold check_quota.
    rewrite (bind_ok _ _ _ _ _ (get_account_by_email_ok env _ w Hfault)).
    rewrite Hrow. pose proof Hne as Hneb. apply String.eqb_neq in Hneb.
    rewrite Hneb.
    rewrite (bind_ok _ _ _ _ _ (get_request_limit_call env _ _ Hne)).
    cbn [ticks after_statement]. rewrite Hquota. reflexivity. }
  split.
  - intros Hge. apply Z.ltb_ge in Hge. rewrite Hrun, Hge.
    split; reflexivity.
  - intros Hlt Hfault2. pose proof Hlt as Hltb. apply Z.ltb_lt in Hltb.
    rewrite Hrun, Hltb. split.
    + rewrite (bind_ok _ _ _ _ _
                 (update_account_status_ok env _ _ checked Hfault2)).
      reflexivity.
    + eapply Forall2_impl; [|apply sql_update_status_frame].
      intros r r' [_ [Hset _]]. exact Hset.
Qed.

End OneCredential.



Lemma refresh_failure_marks_expired_witness :
  is_token_expired_at rejecting_env (time_time rejecting_env (ticks stale_world))
    (id_token stale_account) is_token_expired_default_buffer = true /\
  can_refresh_token_at (datetime_now rejecting_env (ticks stale_world))
    stale_account = true /\
  verify_account rejecting_env stale_account (mkCounts 0 0 0) stale_world
    = (inr (mkCounts 0 0 1),
       mkWorld [set_status "expired" stale_account] 2
               [EvRefreshPost "secret";
                EvUpdateStatus "stale@example.com" "expired"]).
Proof.
  split; [reflexivity|]. split; [reflexivity|].
  exact (proj1 (refresh_failure_marks_expired rejecting_env stale_account
           (mkCounts 0 0 0) stale_world false None
           (Some "HTTP 400: INVALID_REFRESH_TOKEN")
           eq_refl eq_refl eq_refl eq_refl eq_refl)).
Defined.

Lemma quota_threshold_decides_witness :
  quota_answer low_quota_env 1 token_exp_2000
    = QuotaSuccess (PInt 150) (PInt 141) (NInt (config.MIN_QUOTA_THRESHOLD - 1)) /\
  check_quota low_quota_env fresh_account (mkCounts 4 5 6) fresh_world
    = (inr (mkCounts 4 6 6, FallThrough),
       mkWorld [set_status "expired" fresh_account] 3
               [EvGetByEmail "fresh@example.com";
                EvQuotaPost token_exp_2000;
                EvUpdateStatus "fresh@example.com" "expired"]) /\
  quota_answer enough_quota_env 1 token_exp_2000
    = QuotaSuccess (PInt 150) (PInt 140) (NInt config.MIN_QUOTA_THRESHOLD) /\
  check_quota enough_quota_env fresh_account (mkCounts 4 5 6) fresh_world
    = (inr (mkCounts 5 5 6, FallThrough),
       mkWorld [fresh_account] 2
               [EvGetByEmail "fresh@example.com"; EvQuotaPost token_exp_2000]).
Proof.
  split; [reflexivity|]. split.
  - refine (proj1 (proj2 (quota_threshold_decides low_quota_env fresh_account
              fresh_account (mkCounts 4 5 6) fresh_world (PInt 150) (PInt 141) 9
              eq_refl eq_refl _ eq_refl) _ eq_refl)).
    + discriminate.
    + reflexivity.
  - split; [reflexivity|].
    refine (proj1 (proj1 (quota_threshold_decides enough_quota_env fresh_account
              fresh_account (mkCounts 4 5 6) fresh_world (PInt 150) (PInt 140) 10
              eq_refl eq_refl _ eq_refl) _)).
    + discriminate.
    + discriminate.
Defined.

(** ** What a verification pass can touch *)

Section Frame.

Variable env : Env.
Variable listed : string -> Prop.

Lemma Forall2_same {A : Type} (R : A -> A -> Prop) (l : list A) :
  (forall x, R x x) -> Forall2 R l l.
Proof. intros HR. induction l; constructor; auto. Qed.

Lemma Forall2_compose {A : Type} (R : A -> A -> Prop) (l1 l2 l3 : list A) :
  (forall x y z, R x y -> R y z -> R x z) ->
  Forall2 R l1 l2 -> Forall2 R l2 l3 -> Forall2 R l1 l3.
Proof.
  intros HR H12. revert l3.
  induction H12 as [|x y l1 l2 Hxy _ IH]; intros l3 H23.
  - inversion H23. constructor.
  - inversion H23 as [|y' z l2' l3' Hyz Hrest]; subst.
    constructor; [eapply HR; eassumption | apply IH; exact Hrest].
Qed.

Lemma row_within_refl (r : Account) : row_within listed r r.
Proof. unfold row_within. auto. Qed.

Lemma row_within_trans (r1 r2 r3 : Account) :
  row_within listed r1 r2 -> row_within listed r2 r3 -> row_within listed r1 r3.
Proof.
  unfold row_within.
  intros [Hi1 [He1 [Hs1 Hk1]]] [Hi2 [He2 [Hs2 Hk2]]].
  split; [congruence|]. split; [congruence|]. split.
  - destruct Hs2 as [Hs2|Hs2]; [rewrite Hs2; exact Hs1 | right; exact Hs2].
  - intros Hn. rewrite <- (Hk1 Hn). apply Hk2. rewrite He1. exact Hn.
Qed.

Lemma within_refl (w : World) : within listed w w.
Proof.
  split.
  - exists []. rewrite app_nil_r. split; [reflexivity|constructor].
  - apply Forall2_same. apply row_within_refl.
Qed.

Lemma within_trans (w1 w2 w3 : World) :
  within listed w1 w2 -> within listed w2 w3 -> within listed w1 w3.
Proof.
  intros [[e1 [Hl1 Hf1]] Hr1] [[e2 [Hl2 Hf2]] Hr2]. split.
  - exists (e1 ++ e2)%list. split.
    + rewrite Hl2, Hl1, app_assoc. reflexivity.
    + apply Forall_app. split; assumption.
  - eapply Forall2_compose; [apply row_within_trans | exact Hr1 | exact Hr2].
Qed.

Lemma within_after_statement (ev : Event) (t : Table) (w : World) :
  event_within listed ev ->
  Forall2 (row_within listed) (accounts w) t ->
  within listed w (after_statement ev t w).
Proof.
  intros Hev Ht. split; [|exact Ht].
  exists [ev]. split; [reflexivity|]. constructor; [exact Hev|constructor].
Qed.

Lemma stays_ret {A : Type} (a : A) : stays_within listed (ret a).
Proof. intros w. apply within_refl. Qed.

Lemma stays_bind {A B : Type} (m : M A) (k : A -> M B) :
  stays_within listed m -> (forall a, stays_within listed (k a)) ->
  stays_within listed (bind m k).
Proof.
  intros Hm Hk w. unfold bind. specialize (Hm w).
  destruct (m w) as [[e|a] w1]; cbn in *; [exact Hm|].
  eapply within_trans; [exact Hm | apply Hk].
Qed.

Lemma stays_try_except {A : Type} (m : M A) (h : PyExn -> M A) :
  stays_within listed m -> (forall e, stays_within listed (h e)) ->
  stays_within listed (try_except m h).
Proof.
  intros Hm Hh w. unfold try_except. specialize (Hm w).
  destruct (m w) as [[e|a] w1]; cbn in *; [|exact Hm].
  eapply within_trans; [exact Hm | apply Hh].
Qed.

Lemma stays_sql_statement (ev : Event) :
  event_within listed ev -> stays_within listed (sql_statement env ev).
Proof.
  intros Hev w.
  destruct (db_fault env (ticks w)) as [e|] eqn:Hf.
  - rewrite (sql_statement_fault env ev w e Hf).
    apply within_after_statement; [exact Hev|].
    apply Forall2_same, row_within_refl.
  - rewrite (sql_statement_ok env ev w Hf).
    apply within_after_statement; [exact Hev|].
    apply Forall2_same, row_within_refl.
Qed.

Lemma sql_update_within (mail : string) (f : Account -> Account) (t : Table) :
  listed mail ->
  (forall r, id (f r) = id r /\ email (f r) = email r /\
             (status (f r) = status r \/ status (f r) = "expired")) ->
  Forall2 (row_within listed) t (sql_update mail f t).
Proof.
  intros Hl Hf. induction t as [|r t IH]; cbn; constructor; [|exact IH].
  destruct (email r =? mail)%string eqn:Heq.
  - apply String.eqb_eq in Heq. destruct (Hf r) as [Hi [He Hs]].
    split; [exact Hi|]. split; [exact He|]. split; [exact Hs|].
    intros Hn. exfalso. apply Hn. rewrite Heq. exact Hl.
  - apply row_within_refl.
Qed.

Lemma stays_update_account_status (mail : string) :
  listed mail ->
  stays_within listed (update_account_status env mail "expired").
Proof.
  intros Hl w.
  destruct (db_fault env (ticks w)) as [e|] eqn:Hf.
  - rewrite (update_account_status_fault env mail _ w e Hf).
    apply within_after_statement; [split; [reflexivity|exact Hl]|].
    apply Forall2_same, row_within_refl.
  - rewrite (update_account_status_ok env mail _ w Hf).
    apply within_after_statement; [split; [reflexivity|exact Hl]|].
    apply sql_update_within; [exact Hl|].
    intros r. cbn. auto.
Qed.

Lemma stays_update_account_token (mail tok : string) (rt : option string) :
  listed mail ->
  stays_within listed (update_account_token env mail tok rt).
Proof.
  intros Hl w.
  destruct (db_fault env (ticks w)) as [e|] eqn:Hf.
  - rewrite (update_account_token_fault env mail tok rt w e Hf).
    apply within_after_statement; [exact Hl|].
    apply Forall2_same, row_within_refl.
  - rewrite (update_account_token_ok env mail tok rt w Hf).
    apply within_after_statement; [exact Hl|].
    apply sql_update_within; [exact Hl|].
    intros r. destruct (truthy_str rt); cbn; auto.
Qed.

Lemma stays_unchanged {A : Type} (m : M A) :
  (forall w, snd (m w) = w) -> stays_within listed m.
Proof. intros H w. rewrite H. apply within_refl. Qed.

Lemma stays_get_account_by_email (mail : string) :
  listed mail -> stays_within listed (get_account_by_email env mail).
Proof.
  intros Hl. unfold get_account_by_email.
  apply stays_bind; [apply stays_sql_statement; exact Hl|].
  intros _. apply stays_unchanged. reflexivity.
Qed.

Lemma stays_get_request_limit (tok : string) :
  stays_within listed (_get_request_limit env tok).
Proof.
  intros w. unfold _get_request_limit.
  destruct (tok =? "")%string; [apply within_refl|].
  apply (within_after_statement (EvQuotaPost tok) (accounts w) w); [exact I|].
  apply Forall2_same, row_within_refl.
Qed.

Lemma stays_refresh_firebase_token (rt : string) :
  stays_within listed (refresh_firebase_token env rt).
Proof.
  intros w. rewrite refresh_call.
  apply within_after_statement; [exact I|].
  apply Forall2_same, row_within_refl.
Qed.

Lemma stays_asyncio_sleep (seconds : Z) :
  stays_within listed (asyncio_sleep seconds).
Proof.
  intros w.
  apply (within_after_statement (EvSleep seconds) (accounts w) w); [exact I|].
  apply Forall2_same, row_within_refl.
Qed.

Lemma stays_refresh_account_if_needed (account : Account) :
  listed (email account) ->
  stays_within listed (refresh_account_if_needed env account).
Proof.
  intros Hl. unfold refresh_account_if_needed.
  apply stays_bind; [apply stays_unchanged; reflexivity|].
  intros expired. destruct expired; cbn [negb]; [|apply stays_ret].
  apply stays_bind; [apply stays_unchanged; reflexivity|].
  intros can. destruct can; cbn [negb]; [|apply stays_ret].
  apply stays_bind; [apply stays_refresh_firebase_token|].
  intros [[success new_id_token] new_refresh_token].
  destruct (success && truthy_str new_id_token).
  - apply stays_bind; [apply stays_update_account_token; exact Hl|].
    intros _. apply stays_ret.
  - apply stays_bind; [apply stays_update_account_status; exact Hl|].
    intros _. apply stays_ret.
Qed.

Lemma stays_check_quota (account : Account) (c : Counts) :
  listed (email account) ->
  stays_within listed (check_quota env account c).
Proof.
  intros Hl. unfold check_quota.
  apply stays_bind; [apply stays_get_account_by_email; exact Hl|].
  intros [current|]; [|apply stays_ret].
  destruct (id_token current =? "")%string; [apply stays_ret|].
  apply stays_bind; [apply stays_get_request_limit|].
  intros [l u remaining|err].
  - destruct (num_lt_int remaining config.MIN_QUOTA_THRESHOLD); [|apply stays_ret].
    apply stays_bind; [apply stays_update_account_status; exact Hl|].
    intros _. apply stays_ret.
  - apply stays_bind; [apply stays_update_account_status; exact Hl|].
    intros _. apply stays_ret.
Qed.

Lemma stays_verify_account (account : Account) (c : Counts) :
  listed (email account) ->
  stays_within listed (verify_account env account c).
Proof.
  intros Hl. unfold verify_account.
  apply stays_bind.
  - apply stays_try_except.
    + unfold verify_try.
      apply stays_bind; [apply stays_refresh_account_if_needed; exact Hl|].
      intros valid. destruct valid; cbn [negb];
        [apply stays_check_quota; exact Hl | apply stays_ret].
    + intros e. unfold verify_except.
      apply stays_bind; [apply stays_update_account_status; exact Hl|].
      intros _. apply stays_ret.
  - intros [c' [|]]; [apply stays_ret|].
    apply stays_bind; [apply stays_asyncio_sleep|].
    intros _. apply stays_ret.
Qed.

Lemma stays_verify_loop (accs : list Account) (c : Counts) :
  (forall a, In a accs -> listed (email a)) ->
  stays_within listed (verify_loop env accs c).
Proof.
  revert c. induction accs as [|a rest IH]; intros c Hl; cbn [verify_loop].
  - apply stays_ret.
  - apply stays_bind.
    + apply stays_verify_account. apply Hl. left. reflexivity.
    + intros c'. apply IH. intros a' Hin. apply Hl. right. exact Hin.
Qed.

End Frame.

Section Pass.

Variable env : Env.

Lemma get_all_accounts_active_ok (w : World) :
  db_fault env (ticks w) = None ->
  get_all_accounts env (Some "active") w
    = (inr (sql_select_status "active" (accounts w)),
       after_statement (EvGetAll (Some "active")) (accounts w) w).
Proof.
  intros H. unfold get_all_accounts.
  rewrite (bind_ok _ _ _ _ _ (sql_statement_ok _ _ w H)). reflexivity.
Qed.

Lemma get_all_accounts_fault (st : option string) (w : World) (e : PyExn) :
  db_fault env (ticks w) = Some e ->
  get_all_accounts env st w
    = (inl e, after_statement (EvGetAll st) (accounts w) w).
Proof.
  intros H. unfold get_all_accounts.
  rewrite (bind_raises _ _ _ _ _ (sql_statement_fault _ _ w e H)). reflexivity.
Qed.

Lemma selected_is_listed (w : World) (a : Account) :
  In a (sql_select_status "active" (accounts w)) ->
  listed_active w (email a).
Proof.
  unfold sql_select_status. rewrite filter_In, String.eqb_eq.
  intros [Hin Hst]. exists a. auto.
Qed.

Lemma verify_accounts_within (w : World) :
  within (listed_active w) w (snd (verify_accounts env w)).
Proof.
  unfold verify_accounts.
  assert (Hlist : within (listed_active w) w
                    (after_statement (EvGetAll (Some "active")) (accounts w) w)).
  { apply within_after_statement; [reflexivity|].
    apply Forall2_same, row_within_refl. }
  destruct (db_fault env (ticks w)) as [e|] eqn:Hf.
  - rewrite (bind_raises _ _ _ _ _ (get_all_accounts_fault _ w e Hf)).
    exact Hlist.
  - rewrite (bind_ok _ _ _ _ _ (get_all_accounts_active_ok w Hf)).
    pose proof (selected_is_listed w) as Hsel.
    destruct (sql_select_status "active" (accounts w)) as [|a rest];
      [exact Hlist|].
    eapply within_trans; [exact Hlist|].
    pose proof (stays_verify_loop env (listed_active w) (a :: rest)
                  (mkCounts 0 0 0) Hsel
                  (after_statement (EvGetAll (Some "active")) (accounts w) w))
      as Hloop.
    unfold bind.
    destruct (verify_loop env (a :: rest) (mkCounts 0 0 0) _) as [[e|c] w1];
      exact Hloop.
Qed.

Lemma Forall2_impl_In {A : Type} (R R' : A -> A -> Prop) (l l' : list A) :
  (forall x y, In x l -> R x y -> R' x y) ->
  Forall2 R l l' -> Forall2 R' l l'.
Proof.
  intros Himp H. induction H as [|x y l l' Hxy _ IH]; constructor.
  - apply Himp; [left; reflexivity | exact Hxy].
  - apply IH. intros x' y' Hin. apply Himp. right. exact Hin.
Qed.

Lemma unique_email (t : Table) (a r : Account) :
  NoDup (map email t) -> In a t -> In r t -> email a = email r -> a = r.
Proof.
  induction t as [|x t IH]; cbn; intros Hnd Ha Hr Heq; [contradiction|].
  inversion Hnd as [|? ? Hnotin Hnd']; subst.
  destruct Ha as [<-|Ha], Hr as [<-|Hr].
  - reflexivity.
  - exfalso. apply Hnotin. rewrite Heq. apply in_map. exact Hr.
  - exfalso. apply Hnotin. rewrite <- Heq. apply in_map. exact Ha.
  - apply IH; assumption.
Qed.

(** C9. In a verification pass every status write writes [expired] and,
    like every row read and token write, addresses an e-mail that was
    listed as [active] when the pass began; the only listing is that of the
    active rows. Every row keeps its identity and its status either stays
    or becomes [expired], so an [expired] row stays [expired]; and with
    unique e-mails a row that was not [active] is left exactly as it was. *)
Theorem verify_accounts_only_expires_active (w : World) :
  let w' := snd (verify_accounts env w) in
  (exists evs : list Event,
     log w' = (log w ++ evs)%list /\
     Forall (event_within (listed_active w)) evs) /\
  Forall2 (fun r r' =>
             id r' = id r /\ email r' = email r /\
             (status r' = status r \/ status r' = "expired") /\
             (status r = "expired" -> status r' = "expired"))
          (accounts w) (accounts w') /\
  (NoDup (map email (accounts w)) ->
   Forall2 (fun r r' => status r <> "active" -> r' = r)
           (accounts w) (accounts w')).
Proof.
  intros w'. destruct (verify_accounts_within w) as [Hlog Hrows].
  fold w' in Hlog, Hrows.
  split; [exact Hlog|]. split.
  - eapply Forall2_impl; [|exact Hrows].
    intros r r' [Hi [He [Hs _]]].
    split; [exact Hi|]. split; [exact He|]. split; [exact Hs|].
    intros Hexp. destruct Hs as [Hs|Hs]; congruence.
  - intros Hnd. eapply Forall2_impl_In; [|exact Hrows].
    intros r r' Hin [_ [_ [_ Hkeep]]] Hna. apply Hkeep.
    intros [a [Ha [Hact Hmail]]].
    apply Hna. rewrite <- (unique_email _ a r Hnd Ha Hin Hmail). exact Hact.
Qed.

End Pass.

Lemma verify_accounts_only_expires_active_witness :
  NoDup (map email (accounts mixed_world)) /\
  Forall2 (fun r r' => status r <> "active" -> r' = r)
          (accounts mixed_world)
          (accounts (snd (verify_accounts low_quota_env mixed_world))).
Proof.
  split.
  - repeat constructor; cbn; intuition discriminate.
  - apply (verify_accounts_only_expires_active low_quota_env mixed_world).
    repeat constructor; cbn; intuition discriminate.
Defined.

(** ** Fault containment *)

Section Containment.

Variable env : Env.

Lemma asyncio_sleep_run (seconds : Z) (w : World) :
  asyncio_sleep seconds w
    = (inr tt, after_statement (EvSleep seconds) (accounts w) w).
Proof. reflexivity. Qed.

Lemma maintenance_cycle_contains (cycle : Z) (w : World) :
  exists w', maintenance_cycle env cycle w = (inr tt, w').
Proof.
  unfold maintenance_cycle, try_except.
  match goal with
  | |- context [match ?m w with _ => _ end] => destruct (m w) as [[e|[]] w1]
  end; eexists; reflexivity.
Qed.

(** C10 (as the code has it). An exception raised in the [try] block of one
    credential is caught by that credential's handler; if the handler's own
    status write goes through, the credential becomes [expired], is counted
    as failed, and after the pacing sleep the pass goes on with the next
    credential. Whatever a cycle raises is caught by the cycle's own [try]
    statement, which always ends normally. *)
Theorem exception_contained_per_credential :
  (forall (account : Account) (rest : list Account) (c : Counts)
          (w w1 : World) (e : PyExn),
     verify_try env account c w = (inl e, w1) ->
     db_fault env (ticks w1) = None ->
     let table := sql_update (email account) (set_status "expired") (accounts w1) in
     verify_loop env (account :: rest) c w
       = verify_loop env rest (count_failed c)
           (after_statement (EvSleep 1) table
              (after_statement (EvUpdateStatus (email account) "expired")
                               table w1))) /\
  (forall (cycle : Z) (w : World),
     exists w', maintenance_cycle env cycle w = (inr tt, w')).
Proof.
  split; [|exact maintenance_cycle_contains].
  intros account rest c w w1 e Hraise Hfault table.
  cbn [verify_loop]. unfold verify_account, try_except.
  unfold bind at 1. unfold bind at 1. rewrite Hraise.
  unfold verify_except.
  rewrite (bind_ok _ _ _ _ _ (update_account_status_ok env _ _ w1 Hfault)).
  reflexivity.
Qed.

End Containment.

Lemma exception_contained_per_credential_witness :
  verify_try locked_once_env fresh_account (mkCounts 0 0 0)
             (mkWorld [fresh_account] 1 [])
    = (inl (OperationalError "database is locked"),
       mkWorld [fresh_account] 2 [EvGetByEmail "fresh@example.com"]) /\
  db_fault locked_once_env 2 = None /\
  verify_loop locked_once_env [fresh_account] (mkCounts 0 0 0)
              (mkWorld [fresh_account] 1 [])
    = (inr (mkCounts 0 0 1),
       mkWorld [set_status "expired" fresh_account] 4
               [EvGetByEmail "fresh@example.com";
                EvUpdateStatus "fresh@example.com" "expired";
                EvSleep 1]).
Proof.
  split; [reflexivity|]. split; [reflexivity|].
  exact (proj1 (exception_contained_per_credential locked_once_env)
           fresh_account [] (mkCounts 0 0 0) (mkWorld [fresh_account] 1 [])
           (mkWorld [fresh_account] 2 [EvGetByEmail "fresh@example.com"])
           (OperationalError "database is locked") eq_refl eq_refl).
Defined.

(** C10 as stated does not hold: with a storage that stays locked after the
    listing, the read of the first credential raises, the handler's status
    write raises as well, and the pass ends there with that exception: the
    first credential is still [active] and the second one is never looked
    at. *)
Lemma locked_storage_counterexample :
  verify_try locked_env fresh_account (mkCounts 0 0 0)
             (mkWorld [fresh_account; other_account] 1 [EvGetAll (Some "active")])
    = (inl (OperationalError "database is locked"),
       mkWorld [fresh_account; other_account] 2
               [EvGetAll (Some "active"); EvGetByEmail "fresh@example.com"]) /\
  verify_accounts locked_env two_accounts_world
    = (inl (OperationalError "database is locked"),
       mkWorld [fresh_account; other_account] 3
               [EvGetAll (Some "active");
                EvGetByEmail "fresh@example.com";
                EvUpdateStatus "fresh@example.com" "expired"]).
Proof.
  split; reflexivity.
Qed.

(** ** The maintenance loop *)

Section Progress.

Variable env : Env.

Lemma runs_on_refl (w : World) : runs_on w w.
Proof.
  split; [apply Nat.le_refl|].
  exists []. rewrite app_nil_r. split; [reflexivity|constructor].
Qed.

Lemma runs_on_trans (w1 w2 w3 : World) :
  runs_on w1 w2 -> runs_on w2 w3 -> runs_on w1 w3.
Proof.
  intros [Ht1 [e1 [Hl1 Hf1]]] [Ht2 [e2 [Hl2 Hf2]]]. split.
  - eapply Nat.le_trans; eassumption.
  - exists (e1 ++ e2)%list. split.
    + rewrite Hl2, Hl1, app_assoc. reflexivity.
    + apply Forall_app. split; assumption.
Qed.

Lemma uninterrupted_same {A : Type} (m : M A) :
  (forall w, ticks (snd (m w)) = ticks w /\ log (snd (m w)) = log w) ->
  uninterrupted m.
Proof.
  intros H w. destruct (H w) as [Ht Hl]. split.
  - rewrite Ht. apply Nat.le_refl.
  - exists []. rewrite Hl, app_nil_r. split; [reflexivity|constructor].
Qed.

Lemma uninterrupted_bind {A B : Type} (m : M A) (k : A -> M B) :
  uninterrupted m -> (forall a, uninterrupted (k a)) -> uninterrupted (bind m k).
Proof.
  intros Hm Hk w. unfold bind. specialize (Hm w).
  destruct (m w) as [[e|a] w1]; cbn in *; [exact Hm|].
  eapply runs_on_trans; [exact Hm | apply Hk].
Qed.

Lemma uninterrupted_try_except {A : Type} (m : M A) (h : PyExn -> M A) :
  uninterrupted m -> (forall e, uninterrupted (h e)) ->
  uninterrupted (try_except m h).
Proof.
  intros Hm Hh w. unfold try_except. specialize (Hm w).
  destruct (m w) as [[e|a] w1]; cbn in *; [|exact Hm].
  eapply runs_on_trans; [exact Hm | apply Hh].
Qed.

Lemma uninterrupted_emit (ev : Event) :
  not_flag_read ev -> uninterrupted (emit ev).
Proof.
  intros Hev w. split; [apply Nat.le_refl|].
  exists [ev]. split; [reflexivity|]. constructor; [exact Hev|constructor].
Qed.

Lemma uninterrupted_advance : uninterrupted advance.
Proof.
  intros w. split; [cbn; apply Nat.le_succ_diag_r|].
  exists []. cbn. rewrite app_nil_r. split; [reflexivity|constructor].
Qed.

(** Closes a goal [uninterrupted m] for a computation built from the
    primitives of [M], none of which reads the running flag. *)
Ltac quiet :=
  repeat first
    [ match goal with
      | H : forall _, _ |- _ => apply H
      | |- uninterrupted (if ?b then _ else _) => destruct b
      | |- uninterrupted (match ?x with _ => _ end) => destruct x
      end
    | apply uninterrupted_bind; [|intro]
    | apply uninterrupted_try_except; [|intro]
    | apply uninterrupted_emit; exact I
    | apply uninterrupted_advance
    | apply uninterrupted_same; intro; split; reflexivity ].

Lemma uninterrupted_update_account_status (mail st : string) :
  uninterrupted (update_account_status env mail st).
Proof. unfold update_account_status, sql_statement. quiet. Qed.

Lemma uninterrupted_refresh_account_if_needed (account : Account) :
  uninterrupted (refresh_account_if_needed env account).
Proof.
  pose proof uninterrupted_update_account_status as Hstatus.
  unfold refresh_account_if_needed, is_token_expired, can_refresh_token,
    refresh_firebase_token, update_account_token, sql_statement.
  quiet.
Qed.

Lemma uninterrupted_check_quota (account : Account) (c : Counts) :
  uninterrupted (check_quota env account c).
Proof.
  pose proof uninterrupted_update_account_status as Hstatus.
  unfold check_quota, get_account_by_email, _get_request_limit, sql_statement.
  quiet.
Qed.

Lemma uninterrupted_verify_account (account : Account) (c : Counts) :
  uninterrupted (verify_account env account c).
Proof.
  pose proof uninterrupted_update_account_status as Hstatus.
  pose proof uninterrupted_refresh_account_if_needed as Hrefresh.
  pose proof uninterrupted_check_quota as Hquota.
  unfold verify_account, verify_try, verify_except, asyncio_sleep.
  quiet.
Qed.

Lemma uninterrupted_verify_loop (accs : list Account) (c : Counts) :
  uninterrupted (verify_loop env accs c).
Proof.
  revert c. induction accs as [|a rest IH]; intros c; cbn [verify_loop].
  - quiet.
  - apply uninterrupted_bind; [apply uninterrupted_verify_account|].
    intros c'. apply IH.
Qed.

Lemma uninterrupted_maintenance_cycle (cycle : Z) :
  uninterrupted (maintenance_cycle env cycle).
Proof.
  pose proof uninterrupted_verify_loop as Hloop.
  unfold maintenance_cycle, check_pool_health, get_statistics, verify_accounts,
    get_all_accounts, cleanup, cleanup_expired_accounts, sql_statement.
  quiet.
Qed.

End Progress.

Section Loop.

Variable env : Env.
Variable running : nat -> bool.

Lemma read_running_run (w : World) :
  read_running running w = (inr (running (ticks w)), flag_read (running (ticks w)) w).
Proof. reflexivity. Qed.

Lemma loop_leaves (fuel : nat) (cycle : Z) (w : World) :
  running (ticks w) = false ->
  maintenance_loop_from env running (S fuel) cycle w
    = (inr true, flag_read false w).
Proof.
  intros H. cbn [maintenance_loop_from].
  rewrite (bind_ok _ _ _ _ _ (read_running_run w)), H. reflexivity.
Qed.

Lemma loop_iterates (fuel : nat) (cycle : Z) (w : World) :
  running (ticks w) = true ->
  exists w1,
    maintenance_cycle env (cycle + 1) (flag_read true w) = (inr tt, w1) /\
    runs_on (flag_read true w) w1 /\
    maintenance_loop_from env running (S fuel) cycle w
      = maintenance_loop_from env running fuel (cycle + 1)
          (after_statement (EvSleep config.MAINTENANCE_CHECK_INTERVAL)
                           (accounts w1) w1).
Proof.
  intros H.
  destruct (maintenance_cycle_contains env (cycle + 1) (flag_read true w))
    as [w1 Hcycle].
  exists w1. split; [exact Hcycle|]. split.
  - pose proof (uninterrupted_maintenance_cycle env (cycle + 1)
                  (flag_read true w)) as Hrun.
    rewrite Hcycle in Hrun. exact Hrun.
  - cbn [maintenance_loop_from].
    rewrite (bind_ok _ _ _ _ _ (read_running_run w)), H.
    rewrite (bind_ok _ _ _ _ _ Hcycle).
    rewrite (bind_ok _ _ _ _ _ (asyncio_sleep_run _ w1)). reflexivity.
Qed.

(** C3 (as the code has it). The loop reads the running flag once per
    iteration, before the cycle. Read as down, the loop is left at once.
    Read as up, the whole cycle runs without another look at the flag, the
    inter-cycle sleep follows unconditionally, and only then is the flag
    read again. Once the flag stays down the loop ends. *)
Theorem maintenance_loop_checks_flag_before_cycle :
  (forall (fuel : nat) (cycle : Z) (w : World),
     running (ticks w) = false ->
     maintenance_loop_from env running (S fuel) cycle w
       = (inr true, flag_read false w)) /\
  (forall (fuel : nat) (cycle : Z) (w : World),
     running (ticks w) = true ->
     exists w1,
       maintenance_cycle env (cycle + 1) (flag_read true w) = (inr tt, w1) /\
       runs_on (flag_read true w) w1 /\
       maintenance_loop_from env running (S fuel) cycle w
         = maintenance_loop_from env running fuel (cycle + 1)
             (after_statement (EvSleep config.MAINTENANCE_CHECK_INTERVAL)
                              (accounts w1) w1)) /\
  (forall stop : nat,
     (forall t, (stop <= t)%nat -> running t = false) ->
     forall (fuel : nat) (cycle : Z) (w : World),
       (stop - ticks w < fuel)%nat ->
       exists w', maintenance_loop_from env running fuel cycle w = (inr true, w')).
Proof.
  split; [exact loop_leaves|]. split; [exact loop_iterates|].
  intros stop Hdown fuel.
  induction fuel as [|fuel IH]; intros cycle w Hfuel; [lia|].
  destruct (running (ticks w)) eqn:Hflag.
  - destruct (loop_iterates fuel cycle w Hflag) as [w1 [_ [[Hticks _] Hloop]]].
    rewrite Hloop. apply IH. cbn [ticks after_statement flag_read] in *.
    assert (ticks w < stop)%nat.
    { destruct (Nat.lt_ge_cases (ticks w) stop) as [Hlt|Hge]; [exact Hlt|].
      rewrite (Hdown _ Hge) in Hflag. discriminate Hflag. }
    lia.
  - rewrite (loop_leaves fuel cycle w Hflag). eexists. reflexivity.
Qed.

End Loop.

Lemma maintenance_loop_checks_flag_before_cycle_witness :
  (forall t, (1 <= t)%nat -> stopped_during_first_cycle t = false) /\
  exists w',
    maintenance_loop_from (quiet_env 0) stopped_during_first_cycle 2 0 empty_world
      = (inr true, w').
Proof.
  assert (Hdown : forall t, (1 <= t)%nat -> stopped_during_first_cycle t = false).
  { intros t Ht. destruct t; [inversion Ht | reflexivity]. }
  split; [exact Hdown|].
  apply (proj2 (proj2 (maintenance_loop_checks_flag_before_cycle (quiet_env 0)
                         stopped_during_first_cycle)) 1%nat Hdown).
  cbn. apply Nat.lt_succ_diag_r.
Defined.

(** C3 as stated does not hold: the flag goes down during the first cycle,
    yet the loop sleeps its 120 seconds after that cycle without looking at
    the flag, and reads it only afterwards. *)
Lemma sleep_without_flag_check_counterexample :
  stopped_during_first_cycle 2 = false /\
  maintenance_loop (quiet_env 0) stopped_during_first_cycle 5 empty_world
    = (inr true,
       mkWorld [] 3
               [EvRunning true;
                EvStatistics;
                EvGetAll (Some "active");
                EvSleep 120;
                EvRunning false]).
Proof.
  split; reflexivity.
Qed.

(** ** More on the credential store *)

Section StoreOperations.

Variable env : Env.

(** X1. [get_all_accounts] with a non-empty status returns the rows of that
    status, in table order; with no status or the empty string it returns
    every row. The table is left as it was. *)
Theorem get_all_accounts_filters (st : option string) (w : World) :
  db_fault env (ticks w) = None ->
  exists rows,
    get_all_accounts env st w
      = (inr rows, after_statement (EvGetAll st) (accounts w) w) /\
    (st = None \/ st = Some "" -> rows = accounts w) /\
    (forall s, st = Some s -> s <> "" ->
       rows = sql_select_status s (accounts w) /\
       forall r, In r rows <-> In r (accounts w) /\ status r = s).
Proof.
  intros Hfault. unfold get_all_accounts.
  rewrite (bind_ok _ _ _ _ _ (sql_statement_ok env _ w Hfault)).
  eexists. split; [reflexivity|]. split.
  - intros [-> | ->]; reflexivity.
  - intros s -> Hne. apply String.eqb_neq in Hne.
    cbn [accounts after_statement]. rewrite Hne.
    split; [reflexivity|].
    intros r. unfold sql_select_status. rewrite filter_In, String.eqb_eq.
    reflexivity.
Qed.

Lemma select_after_update (mail : string) (f : Account -> Account) (t : Table) :
  (forall r, email (f r) = email r) ->
  sql_select_email mail (sql_update mail f t)
    = option_map f (sql_select_email mail t).
Proof.
  intros Hf. unfold sql_select_email, sql_update.
  induction t as [|r t IH]; cbn; [reflexivity|].
  destruct (email r =? mail)%string eqn:Heq.
  - rewrite Hf, Heq. reflexivity.
  - rewrite Heq. exact IH.
Qed.

Lemma sql_update_others (mail : string) (f : Account -> Account) (t : Table) :
  Forall2 (fun r r' => (email r = mail -> r' = f r) /\ (email r <> mail -> r' = r))
          t (sql_update mail f t).
Proof.
  induction t as [|r t IH]; cbn; constructor; [|exact IH].
  destruct (email r =? mail)%string eqn:Heq.
  - apply String.eqb_eq in Heq. split; [reflexivity | intros Hne; contradiction].
  - apply String.eqb_neq in Heq. split; [intros He; contradiction | reflexivity].
Qed.

(** X2. After [update_account_status] has gone through,
    [get_account_by_email] for the same e-mail finds the first row of that
    e-mail with the new status and its other columns as before (nothing, if
    no row has the e-mail); rows of other e-mails are as they were. *)
Theorem status_update_is_read_back (mail st : string) (w : World) :
  db_fault env (ticks w) = None ->
  db_fault env (S (ticks w)) = None ->
  exists w1 w2,
    update_account_status env mail st w = (inr tt, w1) /\
    get_account_by_email env mail w1
      = (inr (option_map (set_status st) (sql_select_email mail (accounts w))), w2) /\
    Forall2 (fun r r' => (email r = mail -> r' = set_status st r) /\
                         (email r <> mail -> r' = r))
            (accounts w) (accounts w1).
Proof.
  intros Hf1 Hf2.
  do 2 eexists. split; [apply (update_account_status_ok env mail st w Hf1)|].
  split.
  - rewrite (get_account_by_email_ok env mail (after_statement _ _ w) Hf2).
    cbn [accounts after_statement].
    rewrite select_after_update; [reflexivity|]. intros r. reflexivity.
  - apply sql_update_others.
Qed.

(** X3. A token update that goes through gives every row of the e-mail the
    new bearer token and the time of the update as [last_refresh_time]; the
    exchange secret is replaced only when a non-empty one is given; status
    and all other columns stay, as do the rows of other e-mails. *)
Theorem token_update_frame (mail tok : string) (rt : option string) (w : World) :
  db_fault env (ticks w) = None ->
  exists w1,
    update_account_token env mail tok rt w = (inr tt, w1) /\
    ticks w1 = S (ticks w) /\
    Forall2 (fun r r' =>
               (email r = mail ->
                r' = set_tokens tok
                       (if truthy_str rt then str_of rt else refresh_token r)
                       (datetime_now env (ticks w)) r) /\
               (email r <> mail -> r' = r))
            (accounts w) (accounts w1).
Proof.
  intros Hfault. eexists.
  split; [apply (update_account_token_ok env mail tok rt w Hfault)|].
  split; [reflexivity|]. cbn [accounts after_statement].
  eapply Forall2_impl; [|apply sql_update_others].
  intros r r' [Hset Hkeep]. split; [|exact Hkeep].
  intros He. rewrite (Hset He). destruct (truthy_str rt); reflexivity.
Qed.

Lemma sql_update_unknown (mail : string) (f : Account -> Account) (t : Table) :
  (forall r, In r t -> email r <> mail) -> sql_update mail f t = t.
Proof.
  intros Hno. unfold sql_update. induction t as [|r t IH]; cbn; [reflexivity|].
  assert (Hr : (email r =? mail)%string = false).
  { apply String.eqb_neq. apply Hno. left. reflexivity. }
  rewrite Hr. f_equal. apply IH. intros r' Hin. apply Hno. right. exact Hin.
Qed.

(** X4. For an e-mail that no row has, the status update and the token
    update both end normally and leave the table as it was, and the lookup
    finds nothing. *)
Theorem unknown_email_is_a_no_op (mail : string) (w : World) :
  (forall r, In r (accounts w) -> email r <> mail) ->
  db_fault env (ticks w) = None ->
  (forall st,
     update_account_status env mail st w
       = (inr tt, after_statement (EvUpdateStatus mail st) (accounts w) w)) /\
  (forall tok rt,
     update_account_token env mail tok rt w
       = (inr tt, after_statement (EvUpdateToken mail tok rt) (accounts w) w)) /\
  get_account_by_email env mail w
    = (inr None, after_statement (EvGetByEmail mail) (accounts w) w).
Proof.
  intros Hno Hfault. split; [|split].
  - intros st. rewrite (update_account_status_ok env mail st w Hfault).
    rewrite sql_update_unknown; [reflexivity | exact Hno].
  - intros tok rt. rewrite (update_account_token_ok env mail tok rt w Hfault).
    rewrite sql_update_unknown; [reflexivity | exact Hno].
  - rewrite (get_account_by_email_ok env mail w Hfault). f_equal. f_equal.
    unfold sql_select_email.
    destruct (find _ (accounts w)) as [r|] eqn:Hfind; [|reflexivity].
    apply find_some in Hfind. destruct Hfind as [Hin Heq].
    apply String.eqb_eq in Heq. exfalso. exact (Hno r Hin Heq).
Qed.

End StoreOperations.

Lemma get_all_accounts_filters_witness :
  db_fault (quiet_env 0) (ticks one_of_each) = None /\
  exists rows,
    get_all_accounts (quiet_env 0) (Some "expired") one_of_each
      = (inr rows, after_statement (EvGetAll (Some "expired"))
                     (accounts one_of_each) one_of_each) /\
    rows = [expired_row].
Proof.
  split; [reflexivity|].
  destruct (get_all_accounts_filters (quiet_env 0) (Some "expired") one_of_each
              eq_refl) as [rows [Hrun [_ Hsel]]].
  exists rows. split; [exact Hrun|].
  destruct (Hsel "expired" eq_refl) as [Hrows _]; [discriminate|].
  rewrite Hrows. reflexivity.
Defined.

Lemma status_update_is_read_back_witness :
  db_fault (quiet_env 0) (ticks one_of_each) = None /\
  db_fault (quiet_env 0) (S (ticks one_of_each)) = None /\
  exists w1 w2,
    update_account_status (quiet_env 0) "fresh@example.com" "expired" one_of_each
      = (inr tt, w1) /\
    get_account_by_email (quiet_env 0) "fresh@example.com" w1
      = (inr (Some (set_status "expired" fresh_account)), w2).
Proof.
  split; [reflexivity|]. split; [reflexivity|].
  destruct (status_update_is_read_back (quiet_env 0) "fresh@example.com"
              "expired" one_of_each eq_refl eq_refl)
    as [w1 [w2 [Hupdate [Hget _]]]].
  exists w1, w2. split; [exact Hupdate | exact Hget].
Defined.

Lemma token_update_frame_witness :
  db_fault (quiet_env 5) (ticks one_of_each) = None /\
  exists w1,
    update_account_token (quiet_env 5) "fresh@example.com" "new" None one_of_each
      = (inr tt, w1) /\
    ticks w1 = 1%nat.
Proof.
  split; [reflexivity|].
  destruct (token_update_frame (quiet_env 5) "fresh@example.com" "new" None
              one_of_each eq_refl) as [w1 [Hrun [Hticks _]]].
  exists w1. split; [exact Hrun | exact Hticks].
Defined.

Lemma unknown_email_is_a_no_op_witness :
  (forall r, In r (accounts one_of_each) -> email r <> "nobody@example.com") /\
  get_account_by_email (quiet_env 0) "nobody@example.com" one_of_each
    = (inr None, after_statement (EvGetByEmail "nobody@example.com")
                   (accounts one_of_each) one_of_each).
Proof.
  assert (Hno : forall r, In r (accounts one_of_each) ->
                          email r <> "nobody@example.com").
  { intros r [<-|[<-|[<-|[]]]]; discriminate. }
  split; [exact Hno|].
  exact (proj2 (proj2 (unknown_email_is_a_no_op (quiet_env 0)
                         "nobody@example.com" one_of_each Hno eq_refl))).
Defined.

(** ** Statistics and the health report *)

Section Statistics.

Variable env : Env.

Lemma dict_get_incr (k s : string) (d : list (string * Z)) :
  dict_get s (dict_incr k d) 0
    = dict_get s d 0 + (if (k =? s)%string then 1 else 0).
Proof.
  induction d as [|[k' n] d IH]; cbn.
  - destruct (k =? s)%string; reflexivity.
  - destruct (k' =? k)%string eqn:Hk; cbn.
    + apply String.eqb_eq in Hk. subst k'.
      destruct (k =? s)%string; lia.
    + destruct (k' =? s)%string eqn:Hs; [|exact IH].
      apply String.eqb_eq in Hs. subst k'.
      rewrite String.eqb_sym, Hk. lia.
Qed.

Lemma count_status_cons (s : string) (r : Account) (t : Table) :
  count_status s (r :: t)
    = (if (status r =? s)%string then 1 else 0) + count_status s t.
Proof.
  unfold count_status, sql_select_status. cbn [filter].
  destruct (status r =? s)%string; cbn [List.length]; lia.
Qed.

Lemma dict_get_group (s : string) (t : Table) (d : list (string * Z)) :
  dict_get s (fold_left (fun d r => dict_incr (status r) d) t d) 0
    = dict_get s d 0 + count_status s t.
Proof.
  revert d. induction t as [|r t IH]; intros d; cbn [fold_left].
  - unfold count_status. cbn. lia.
  - rewrite IH, dict_get_incr, count_status_cons. lia.
Qed.

Lemma dict_get_set (k s : string) (v default : Z) (d : list (string * Z)) :
  dict_get s (dict_set k v d) default
    = if (k =? s)%string then v else dict_get s d default.
Proof.
  induction d as [|[k' n] d IH]; cbn.
  - reflexivity.
  - destruct (k' =? k)%string eqn:Hk; cbn.
    + apply String.eqb_eq in Hk. subst k'.
      destruct (k =? s)%string; reflexivity.
    + destruct (k' =? s)%string eqn:Hs; [|exact IH].
      apply String.eqb_eq in Hs. subst k'.
      rewrite String.eqb_sym, Hk. reflexivity.
Qed.

Lemma sql_statistics_get (s : string) (t : Table) :
  dict_get s (sql_statistics t) 0
    = if ("total" =? s)%string then Z.of_nat (List.length t) else count_status s t.
Proof.
  unfold sql_statistics. rewrite dict_get_set, dict_get_group. reflexivity.
Qed.

(** X5. The statistics hold, under [total], the number of rows, and under
    every other status the number of rows of that status (0 for a status no
    row has); reading them does not change the table. *)
Theorem get_statistics_counts (w : World) :
  db_fault env (ticks w) = None ->
  exists stats,
    get_statistics env w
      = (inr stats, after_statement EvStatistics (accounts w) w) /\
    dict_get "total" stats 0 = Z.of_nat (List.length (accounts w)) /\
    forall s, s <> "total" -> dict_get s stats 0 = count_status s (accounts w).
Proof.
  intros Hfault. exists (sql_statistics (accounts w)). split.
  - unfold get_statistics.
    rewrite (bind_ok _ _ _ _ _ (sql_statement_ok env _ w Hfault)). reflexivity.
  - split.
    + rewrite sql_statistics_get. reflexivity.
    + intros s Hne. rewrite sql_statistics_get.
      destruct ("total" =? s)%string eqn:Heq; [|reflexivity].
      apply String.eqb_eq in Heq. congruence.
Qed.

Lemma three_statuses_bound (t : Table) :
  count_status "active" t + count_status "expired" t + count_status "blocked" t
    <= Z.of_nat (List.length t).
Proof.
  induction t as [|r t IH].
  - unfold count_status. cbn. lia.
  - rewrite !count_status_cons. cbn [List.length].
    destruct (status r =? "active")%string eqn:Ha;
      destruct (status r =? "expired")%string eqn:He;
      destruct (status r =? "blocked")%string eqn:Hb;
      try (apply String.eqb_eq in Ha); try (apply String.eqb_eq in He);
      try (apply String.eqb_eq in Hb); try congruence; lia.
Qed.

(** X6. The health report shows the number of rows and the numbers of
    active, expired and blocked rows, which together never exceed the total;
    the shortage warning is given exactly when fewer than [MIN_POOL_SIZE]
    rows are active. *)
Theorem pool_health_reports_counts (t : Table) :
  let report := pool_health (sql_statistics t) in
  report_total report = Z.of_nat (List.length t) /\
  report_active report = count_status "active" t /\
  report_expired report = count_status "expired" t /\
  report_blocked report = count_status "blocked" t /\
  report_active report + report_expired report + report_blocked report
    <= report_total report /\
  (report_warning report = true <->
   count_status "active" t < config.MIN_POOL_SIZE).
Proof.
  cbn zeta. unfold pool_health.
  cbn [report_total report_active report_expired report_blocked report_warning].
  rewrite !sql_statistics_get. cbn [String.eqb Ascii.eqb Bool.eqb].
  repeat split; try reflexivity.
  - apply three_statuses_bound.
  - apply Z.ltb_lt.
  - apply Z.ltb_lt.
Qed.

End Statistics.

Lemma get_statistics_counts_witness :
  db_fault (quiet_env 0) (ticks one_of_each) = None /\
  exists stats,
    get_statistics (quiet_env 0) one_of_each
      = (inr stats, after_statement EvStatistics (accounts one_of_each) one_of_each) /\
    dict_get "total" stats 0 = 3 /\ dict_get "blocked" stats 0 = 1.
Proof.
  split; [reflexivity|].
  destruct (get_statistics_counts (quiet_env 0) one_of_each eq_refl)
    as [stats [Hrun [Htotal Hcount]]].
  exists stats. split; [exact Hrun|]. split; [exact Htotal|].
  rewrite Hcount; [reflexivity | discriminate].
Defined.

(** ** More on the purge *)

Section Purge.

Variable env : Env.






End Purge.


(** ** More on token freshness *)

Section Freshness.

Variable env : Env.

(** [split] yields one part more than the string has separators. *)
Lemma split_length (sep : ascii) (s : string) :
  List.length (split sep s)
    = S (List.length (filter (Ascii.eqb sep) (list_ascii_of_string s))).
Proof.
  induction s as [|c s IH]; cbn; [reflexivity|].
  rewrite (Ascii.eqb_sym sep c).
  destruct (Ascii.eqb c sep); cbn [List.length].
  - rewrite IH. reflexivity.
  - destruct (split sep s) as [|hd tl] eqn:Hsplit; [discriminate IH|].
    exact IH.
Qed.

(** X8. A token that does not contain exactly two dots is expired, at any
    time and for any buffer: too many segments count like too few. *)
Theorem token_without_two_dots_is_expired (now : Z) (id_token : string)
    (buffer_minutes : Z) :
  List.length (filter (Ascii.eqb ".") (list_ascii_of_string id_token)) <> 2%nat ->
  is_token_expired_at env now id_token buffer_minutes = true.
Proof.
  intros Hdots. unfold is_token_expired_at, is_token_expired_try.
  destruct (id_token =? "")%string; [reflexivity|].
  rewrite split_length.
  destruct (Nat.eqb _ 3) eqn:Hlen; [|reflexivity].
  apply Nat.eqb_eq in Hlen. injection Hlen as Hlen. contradiction.
Qed.

Lemma seconds_left_mono (q : Q) (now now' bound bound' : Z) :
  now <= now' -> bound <= bound' ->
  Qle_bool (q - Qmake now 1000000) (inject_Z bound) = true ->
  Qle_bool (q - Qmake now' 1000000) (inject_Z bound') = true.
Proof.
  intros Hnow Hbound. rewrite !Qle_bool_iff. intros Hle.
  apply Qle_trans with (y := (q - Qmake now 1000000)%Q).
  - unfold Qminus. apply Qplus_le_r. apply Qopp_le_compat.
    unfold Qle. cbn. lia.
  - apply Qle_trans with (y := inject_Z bound); [exact Hle|].
    rewrite <- Zle_Qle. exact Hbound.
Qed.

(** X9. Expiry is monotone: a token found expired stays expired at every
    later time and for every larger buffer. *)
Theorem expired_stays_expired (now now' : Z) (id_token : string)
    (buffer_minutes buffer_minutes' : Z) :
  now <= now' ->
  buffer_minutes <= buffer_minutes' ->
  is_token_expired_at env now id_token buffer_minutes = true ->
  is_token_expired_at env now' id_token buffer_minutes' = true.
Proof.
  intros Hnow Hbuf. unfold is_token_expired_at, is_token_expired_try.
  destruct (id_token =? "")%string; [reflexivity|].
  destruct (negb _); [reflexivity|].
  destruct (decode_payload env _) as [e|payload]; [reflexivity|].
  cbn [rbind]. destruct (py_get payload "exp" PNone) as [e|exp]; [reflexivity|].
  cbn [rbind]. destruct (negb (truthy exp)); [reflexivity|].
  assert (Hbound : buffer_minutes * 60 <= buffer_minutes' * 60) by lia.
  unfold py_sub. cbn [as_num].
  destruct (as_num exp) as [[x|f]|]; [| |reflexivity].
  - cbn [num_sub]. destruct (float_of_int x) as [e|[|s|q]]; cbn;
      try (intros H; exact H).
    apply seconds_left_mono; assumption.
  - cbn [num_sub rbind]. destruct f as [|s|q]; cbn; try (intros H; exact H).
    apply seconds_left_mono; assumption.
Qed.

(** X10. A payload whose [exp] is present but false in Python's sense (0,
    0.0, null, false, an empty string, list or object) or is not a number
    makes the token expired, whatever the time and the buffer. *)
Theorem unusable_exp_is_expired (now : Z) (id_token : string) (buffer_minutes : Z)
    (d : list (string * pyval)) (exp : pyval) :
  decode_payload env (payload_part_of id_token) = inr (PDict d) ->
  lookup "exp" d = Some exp ->
  truthy exp = false \/ as_num exp = None ->
  is_token_expired_at env now id_token buffer_minutes = true.
Proof.
  intros Hdecode Hexp Hbad. unfold is_token_expired_at, is_token_expired_try.
  destruct (id_token =? "")%string; [reflexivity|].
  destruct (negb _); [reflexivity|].
  fold (payload_part_of id_token). rewrite Hdecode.
  cbn [rbind py_get]. rewrite Hexp.
  destruct Hbad as [Hfalsy | Hnan].
  - rewrite Hfalsy. reflexivity.
  - unfold py_sub. rewrite Hnan. destruct (negb (truthy exp)); reflexivity.
Qed.

End Freshness.

Lemma token_without_two_dots_is_expired_witness :
  List.length (filter (Ascii.eqb ".") (list_ascii_of_string "a.b.c.d")) <> 2%nat /\
  is_token_expired_at (quiet_env 0) 0 "a.b.c.d" 10 = true.
Proof.
  assert (H : List.length (filter (Ascii.eqb ".") (list_ascii_of_string "a.b.c.d"))
              <> 2%nat) by (cbn; discriminate).
  split; [exact H|].
  exact (token_without_two_dots_is_expired (quiet_env 0) 0 "a.b.c.d" 10 H).
Defined.

Lemma expired_stays_expired_witness :
  1500 * microseconds_per_second <= 1600 * microseconds_per_second /\
  is_token_expired_at (quiet_env 0) (1500 * microseconds_per_second)
                      token_exp_2000 10 = true /\
  is_token_expired_at (quiet_env 0) (1600 * microseconds_per_second)
                      token_exp_2000 15 = true.
Proof.
  assert (Hnow : 1500 * microseconds_per_second <= 1600 * microseconds_per_second)
    by (cbn; discriminate).
  assert (Hbuf : 10 <= 15) by discriminate.
  split; [exact Hnow|]. split; [reflexivity|].
  exact (expired_stays_expired (quiet_env 0) _ _ token_exp_2000 10 15
           Hnow Hbuf eq_refl).
Defined.

Lemma unusable_exp_is_expired_witness :
  decode_payload exp_zero_env (payload_part_of token_exp_zero)
    = inr (PDict [("exp", PInt 0)]) /\
  is_token_expired_at exp_zero_env (- 1000 * microseconds_per_second)
                      token_exp_zero 10 = true.
Proof.
  split; [reflexivity|].
  exact (unusable_exp_is_expired exp_zero_env (- 1000 * microseconds_per_second)
           token_exp_zero 10 [("exp", PInt 0)] (PInt 0)
           eq_refl eq_refl (or_introl eq_refl)).
Defined.

(** ** More on refreshing *)

Section Refreshing.

Variable env : Env.

Lemma in_sql_update (mail : string) (f : Account -> Account) (t : Table)
    (r' : Account) :
  In r' (sql_update mail f t) ->
  exists r, In r t /\
            r' = if (email r =? mail)%string then f r else r.
Proof.
  unfold sql_update. rewrite in_map_iff.
  intros [r [Heq Hin]]. exists r. split; [exact Hin | symmetry; exact Heq].
Qed.

(** X11. After a token update at time [now], every row of that e-mail is
    on cooldown: it may be refreshed again exactly from
    [now + TOKEN_REFRESH_HOURS] hours on. *)
Theorem refreshed_row_is_on_cooldown (mail tok : string) (rt : option string)
    (w : World) (later : Z) (r' : Account) :
  db_fault env (ticks w) = None ->
  In r' (accounts (snd (update_account_token env mail tok rt w))) ->
  email r' = mail ->
  (can_refresh_token_at later r' = true <->
   timedelta_hours config.TOKEN_REFRESH_HOURS <= later - datetime_now env (ticks w)).
Proof.
  intros Hfault Hin Hmail.
  rewrite (update_account_token_ok env mail tok rt w Hfault) in Hin.
  cbn [snd accounts after_statement] in Hin.
  apply in_sql_update in Hin. destruct Hin as [r [_ Hr']].
  destruct (email r =? mail)%string eqn:Heq.
  - subst r'. unfold can_refresh_token_at.
    destruct (truthy_str rt); cbn [last_refresh_time set_tokens set_id_token];
      apply Z.leb_le.
  - exfalso. apply String.eqb_neq in Heq. subst r'. contradiction.
Qed.

(** X12. The refresh call reports success exactly when the endpoint answers
    without a 4xx or 5xx status and its body parses, and then hands on the
    tokens of the body; in every other case it reports failure with no
    bearer token and with a message. *)
Theorem refresh_outcome_cases (posted : result RefreshResponse) :
  (forall tok rt,
     refresh_outcome posted = (true, tok, rt) <->
     exists response data,
       posted = inr response /\ response_ok response = true /\
       refresh_json response = inr data /\
       tok = body_id_token data /\ rt = body_refresh_token data) /\
  (forall tok msg,
     refresh_outcome posted = (false, tok, msg) ->
     tok = None /\ exists m, msg = Some m).
Proof.
  unfold refresh_outcome. split.
  - intros tok rt. split.
    + destruct posted as [e|response]; [discriminate|].
      destruct (response_ok response) eqn:Hok; [|discriminate].
      destruct (refresh_json response) as [e|data] eqn:Hjson; [discriminate|].
      intros H. injection H as <- <-. exists response, data.
      repeat split; assumption.
    + intros [response [data [-> [Hok [Hjson [-> ->]]]]]].
      rewrite Hok, Hjson. reflexivity.
  - intros tok msg.
    destruct posted as [e|response].
    + intros H. injection H as <- <-. split; [reflexivity|eauto].
    + destruct (response_ok response).
      * destruct (refresh_json response) as [e|data]; [|discriminate].
        intros H. injection H as <- <-. split; [reflexivity|eauto].
      * intros H. injection H as <- <-. split; [reflexivity|eauto].
Qed.

(** X13. When the token of a credential is expired, its refresh is
    permitted and the refresh call delivers a non-empty bearer token, the
    refresh step makes that one call and one token write and reports the
    token as valid: the rows of the e-mail get the new token and the time of
    the write, the exchange secret changes only if a non-empty new one came
    back, and no status changes. *)
Theorem refresh_success_stores_token (account : Account) (w : World)
    (new_id_token : string) (new_refresh_token : option string) :
  is_token_expired_at env (time_time env (ticks w)) (id_token account)
    is_token_expired_default_buffer = true ->
  can_refresh_token_at (datetime_now env (ticks w)) account = true ->
  refresh_outcome (requests_post env (ticks w) (refresh_token account))
    = (true, Some new_id_token, new_refresh_token) ->
  new_id_token <> "" ->
  db_fault env (S (ticks w)) = None ->
  exists table,
    refresh_account_if_needed env account w
      = (inr true,
         mkWorld table (S (S (ticks w)))
                 ((log w ++ [EvRefreshPost (refresh_token account)])
                    ++ [EvUpdateToken (email account) new_id_token
                                      new_refresh_token])) /\
    map status table = map status (accounts w) /\
    Forall2 (fun r r' =>
               (email r = email account ->
                r' = set_tokens new_id_token
                       (if truthy_str new_refresh_token
                        then str_of new_refresh_token else refresh_token r)
                       (datetime_now env (S (ticks w))) r) /\
               (email r <> email account -> r' = r))
            (accounts w) table.
Proof.
  intros He Hc Hout Hne Hfault.
  apply String.eqb_neq in Hne.
  rewrite (refresh_when_due env account w He Hc), Hout.
  cbn [andb truthy_str str_of]. rewrite Hne. cbn [negb].
  rewrite (bind_ok _ _ _ _ _
             (update_account_token_ok env _ _ _ (after_statement _ _ w) Hfault)).
  eexists. split; [reflexivity|].
  cbn [accounts ticks after_statement].
  assert (Hrows : Forall2
            (fun r r' =>
               (email r = email account ->
                r' = set_tokens new_id_token
                       (if truthy_str new_refresh_token
                        then str_of new_refresh_token else refresh_token r)
                       (datetime_now env (S (ticks w))) r) /\
               (email r <> email account -> r' = r))
            (accounts w)
            (sql_update (email account)
               (if truthy_str new_refresh_token
                then set_tokens new_id_token (str_of new_refresh_token)
                       (datetime_now env (S (ticks w)))
                else set_id_token new_id_token (datetime_now env (S (ticks w))))
               (accounts w))).
  { eapply Forall2_impl; [|apply sql_update_others].
    intros r r' [Hset Hkeep]. split; [|exact Hkeep].
    intros Hmail. rewrite (Hset Hmail).
    destruct (truthy_str new_refresh_token); reflexivity. }
  split; [|exact Hrows].
  clear - Hrows. induction Hrows as [|r r' t t' [Hset Hkeep] _ IH]; cbn;
    [reflexivity|].
  f_equal; [|exact IH].
  destruct (String.string_dec (email r) (email account)) as [Hm|Hm].
  - rewrite (Hset Hm). reflexivity.
  - rewrite (Hkeep Hm). reflexivity.
Qed.

End Refreshing.

Lemma refreshed_row_is_on_cooldown_witness :
  db_fault (quiet_env 5) (ticks one_of_each) = None /\
  (can_refresh_token_at (5 + timedelta_hours 1) (set_id_token "new" 5 fresh_account)
     = true <->
   timedelta_hours config.TOKEN_REFRESH_HOURS
     <= 5 + timedelta_hours 1 - datetime_now (quiet_env 5) (ticks one_of_each)).
Proof.
  split; [reflexivity|].
  apply (refreshed_row_is_on_cooldown (quiet_env 5) "fresh@example.com" "new" None
           one_of_each (5 + timedelta_hours 1) (set_id_token "new" 5 fresh_account)
           eq_refl).
  - left. reflexivity.
  - reflexivity.
Defined.

Lemma refresh_outcome_cases_witness :
  refresh_outcome (refresh_rejected 0 "secret")
    = (false, None, Some "HTTP 400: INVALID_REFRESH_TOKEN") /\
  (@None string = None /\ exists m, Some "HTTP 400: INVALID_REFRESH_TOKEN" = Some m).
Proof.
  split; [reflexivity|].
  exact (proj2 (refresh_outcome_cases (refresh_rejected 0 "secret"))
           None (Some "HTTP 400: INVALID_REFRESH_TOKEN") eq_refl).
Defined.

Lemma refresh_success_stores_token_witness :
  is_token_expired_at granting_env (time_time granting_env (ticks stale_world))
    (id_token stale_account) is_token_expired_default_buffer = true /\
  can_refresh_token_at (datetime_now granting_env (ticks stale_world))
    stale_account = true /\
  exists table,
    refresh_account_if_needed granting_env stale_account stale_world
      = (inr true,
         mkWorld table 2
                 [EvRefreshPost "secret";
                  EvUpdateToken "stale@example.com" "renewed" None]) /\
    map status table = ["active"].
Proof.
  split; [reflexivity|]. split; [reflexivity|].
  destruct (refresh_success_stores_token granting_env stale_account stale_world
              "renewed" None eq_refl eq_refl eq_refl)
    as [table [Hrun [Hstatus _]]].
  - discriminate.
  - reflexivity.
  - exists table. split; [exact Hrun | exact Hstatus].
Defined.

(** ** More on the quota check *)

Section QuotaStep.

Variable env : Env.

(** X14. An HTTP 200 answer that carries an [errors] list is a failure
    with the message of the first error, or [GraphQL error] when that error
    has no message, whatever else the answer holds. *)
Theorem graphql_error_is_reported (response : QuotaResponse)
    (d first : list (string * pyval)) (others : list pyval) :
  quota_status_code response = 200 ->
  quota_json response = inr (PDict d) ->
  lookup "errors" d = Some (PList (PDict first :: others)) ->
  read_request_limit (inr response)
    = inr (QuotaFailure (match lookup "message" first with
                         | Some message => message
                         | None => PStr "GraphQL error"
                         end)).
Proof.
  intros Hcode Hjson Herrors. unfold read_request_limit. cbn [rbind].
  rewrite Hcode, Hjson. cbn [Z.eqb Pos.eqb rbind py_in].
  rewrite Herrors. cbn [rbind py_getitem_str]. rewrite Herrors.
  reflexivity.
Qed.

(** X15. The quota call reports a success only for an HTTP 200 answer
    whose body parses, has no [errors] member and has a non-empty
    [requestLimitInfo]. *)
Theorem quota_success_needs_200 (t : nat) (id_token : string)
    (requestLimit requestsUsed : pyval) (remaining : pynum) :
  quota_answer env t id_token = QuotaSuccess requestLimit requestsUsed remaining ->
  exists response json limit_info,
    client_post env t id_token = inr response /\
    quota_status_code response = 200 /\
    quota_json response = inr json /\
    py_in "errors" json = inr false /\
    limit_info_of json = inr limit_info /\
    truthy limit_info = true.
Proof.
  unfold quota_answer, read_request_limit, rbind. intros H.
  destruct (client_post env t id_token) as [e|response]; [discriminate|].
  destruct (quota_status_code response =? 200) eqn:Hcode; [|discriminate].
  destruct (quota_json response) as [e|json] eqn:Hjson; [discriminate|].
  destruct (py_in "errors" json) as [e|[|]] eqn:Hin; try discriminate.
  - destruct (py_getitem_str json "errors") as [e|errors]; [discriminate|].
    destruct (py_getitem_0 errors) as [e|first]; [discriminate|].
    destruct (py_get first "message" _); discriminate.
  - destruct (limit_info_of json) as [e|limit_info] eqn:Hinfo; [discriminate|].
    destruct (truthy limit_info) eqn:Htruthy; [|discriminate].
    apply Z.eqb_eq in Hcode.
    exists response, json, limit_info. repeat split; assumption || reflexivity.
Qed.

(** X16. A transport error becomes a failure that carries the text of the
    exception, and an answer with a status other than 200 becomes the
    failure [HTTP <status>], its body unread. *)
Theorem quota_call_failures (t : nat) (id_token : string) :
  (forall e, client_post env t id_token = inl e ->
     quota_answer env t id_token = QuotaFailure (PStr (str_exn e))) /\
  (forall response, client_post env t id_token = inr response ->
     quota_status_code response <> 200 ->
     quota_answer env t id_token
       = QuotaFailure (PStr ("HTTP " ++ string_of_Z (quota_status_code response)))).
Proof.
  unfold quota_answer, read_request_limit. split.
  - intros e He. rewrite He. reflexivity.
  - intros response Hr Hcode. rewrite Hr. cbn [rbind].
    apply Z.eqb_neq in Hcode. rewrite Hcode. reflexivity.
Qed.

(** X17. If the row of the credential is gone when it is read again, or
    holds an empty token, the credential is counted as failed and the
    iteration goes on at once: no quota call, no status write. *)
Theorem vanished_row_is_counted_failed (account : Account) (c : Counts) (w : World) :
  db_fault env (ticks w) = None ->
  sql_select_email (email account) (accounts w) = None \/
  (exists row, sql_select_email (email account) (accounts w) = Some row /\
               id_token row = "") ->
  check_quota env account c w
    = (inr (count_failed c, Continue),
       after_statement (EvGetByEmail (email account)) (accounts w) w).
Proof.
  intros Hfault Hrow. unfold check_quota.
  rewrite (bind_ok _ _ _ _ _ (get_account_by_email_ok env _ w Hfault)).
  destruct Hrow as [-> | [row [-> Hempty]]]; [reflexivity|].
  rewrite Hempty. reflexivity.
Qed.

(** X18. When the quota call fails, the status of the credential is
    written as [expired] and it is counted as failed. *)
Theorem quota_failure_marks_expired (account row : Account) (c : Counts)
    (w : World) (error : pyval) :
  db_fault env (ticks w) = None ->
  sql_select_email (email account) (accounts w) = Some row ->
  id_token row <> "" ->
  quota_answer env (S (ticks w)) (id_token row) = QuotaFailure error ->
  db_fault env (S (S (ticks w))) = None ->
  check_quota env account c w
    = (inr (count_failed c, FallThrough),
       after_statement (EvUpdateStatus (email account) "expired")
         (sql_update (email account) (set_status "expired") (accounts w))
         (after_statement (EvQuotaPost (id_token row)) (accounts w)
            (after_statement (EvGetByEmail (email account)) (accounts w) w))).
Proof.
  intros Hfault Hrow Hne Hquota Hfault2. unfold check_quota.
  rewrite (bind_ok _ _ _ _ _ (get_account_by_email_ok env _ w Hfault)).
  rewrite Hrow. pose proof Hne as Hneb. apply String.eqb_neq in Hneb.
  rewrite Hneb.
  rewrite (bind_ok _ _ _ _ _ (get_request_limit_call env _ _ Hne)).
  cbn [ticks after_statement]. rewrite Hquota.
  rewrite (bind_ok _ _ _ _ _
             (update_account_status_ok env _ _
                (after_statement (EvQuotaPost (id_token row)) (accounts w)
                   (after_statement (EvGetByEmail (email account)) (accounts w) w))
                Hfault2)).
  reflexivity.
Qed.

End QuotaStep.

Lemma graphql_error_is_reported_witness :
  quota_status_code graphql_error_answer = 200 /\
  read_request_limit (inr graphql_error_answer)
    = inr (QuotaFailure (PStr "Unauthorized")).
Proof.
  split; [reflexivity|].
  exact (graphql_error_is_reported graphql_error_answer
           [("errors", PList [PDict [("message", PStr "Unauthorized")]]);
            ("data", PNone)]
           [("message", PStr "Unauthorized")] [] eq_refl eq_refl eq_refl).
Defined.

Lemma quota_success_needs_200_witness :
  quota_answer low_quota_env 1 token_exp_2000
    = QuotaSuccess (PInt 150) (PInt 141) (NInt 9) /\
  exists response json limit_info,
    client_post low_quota_env 1 token_exp_2000 = inr response /\
    quota_status_code response = 200 /\
    quota_json response = inr json /\
    py_in "errors" json = inr false /\
    limit_info_of json = inr limit_info /\
    truthy limit_info = true.
Proof.
  split; [reflexivity|].
  exact (quota_success_needs_200 low_quota_env 1 token_exp_2000
           (PInt 150) (PInt 141) (NInt 9) eq_refl).
Defined.

Lemma quota_call_failures_witness :
  client_post cooldown_env 0 "stale"
    = inr (mkQuotaResponse 401 (inl (ValueError "Expecting value"))) /\
  quota_answer cooldown_env 0 "stale" = QuotaFailure (PStr "HTTP 401").
Proof.
  split; [reflexivity|].
  refine (proj2 (quota_call_failures cooldown_env 0 "stale")
            (mkQuotaResponse 401 (inl (ValueError "Expecting value"))) eq_refl _).
  discriminate.
Defined.

Lemma vanished_row_is_counted_failed_witness :
  db_fault (quiet_env 0) (ticks empty_world) = None /\
  check_quota (quiet_env 0) fresh_account (mkCounts 0 0 0) empty_world
    = (inr (mkCounts 0 0 1, Continue),
       mkWorld [] 1 [EvGetByEmail "fresh@example.com"]).
Proof.
  split; [reflexivity|].
  exact (vanished_row_is_counted_failed (quiet_env 0) fresh_account
           (mkCounts 0 0 0) empty_world eq_refl (or_introl eq_refl)).
Defined.

Lemma quota_failure_marks_expired_witness :
  quota_answer cooldown_env 1 "stale" = QuotaFailure (PStr "HTTP 401") /\
  check_quota cooldown_env cooling_account (mkCounts 0 0 0) cooldown_world
    = (inr (mkCounts 0 0 1, FallThrough),
       mkWorld [set_status "expired" cooling_account] 3
               [EvGetByEmail "cooling@example.com";
                EvQuotaPost "stale";
                EvUpdateStatus "cooling@example.com" "expired"]).
Proof.
  split; [reflexivity|].
  refine (quota_failure_marks_expired cooldown_env cooling_account cooling_account
            (mkCounts 0 0 0) cooldown_world (PStr "HTTP 401")
            eq_refl eq_refl _ eq_refl eq_refl).
  discriminate.
Defined.

(** ** More on the verification pass *)

Section PassEdges.

Variable env : Env.

Ltac run_status_write :=
  match goal with
  | |- context [bind (update_account_status env ?m ?s) ?k ?w0] =>
      let Hf := fresh "Hfault" in
      destruct (db_fault env (ticks w0)) eqn:Hf;
      [rewrite (bind_raises _ _ _ _ _ (update_account_status_fault env m s w0 _ Hf))
      |rewrite (bind_ok _ _ _ _ _ (update_account_status_ok env m s w0 Hf))]
  end.

(** X19. After a successful refresh the quota endpoint is asked with the
    new bearer token: the iteration makes the refresh call, writes the
    token, reads the row again and queries the quota for the token it has
    just stored. *)
Theorem quota_is_checked_with_new_token (account row : Account) (c : Counts)
    (w : World) (new_id_token : string) (new_refresh_token : option string) :
  is_token_expired_at env (time_time env (ticks w)) (id_token account)
    is_token_expired_default_buffer = true ->
  can_refresh_token_at (datetime_now env (ticks w)) account = true ->
  refresh_outcome (requests_post env (ticks w) (refresh_token account))
    = (true, Some new_id_token, new_refresh_token) ->
  new_id_token <> "" ->
  db_fault env (S (ticks w)) = None ->
  db_fault env (S (S (ticks w))) = None ->
  sql_select_email (email account) (accounts w) = Some row ->
  exists r w' rest,
    verify_try env account c w = (r, w') /\
    log w' = (log w ++ [EvRefreshPost (refresh_token account);
                        EvUpdateToken (email account) new_id_token new_refresh_token;
                        EvGetByEmail (email account);
                        EvQuotaPost new_id_token] ++ rest)%list.
Proof.
  intros He Hc Hout Hne Hf1 Hf2 Hrow.
  pose proof Hne as Hneb. apply String.eqb_neq in Hneb.
  unfold verify_try. unfold bind at 1.
  rewrite (refresh_when_due env account w He Hc), Hout.
  cbn [andb truthy_str str_of]. rewrite Hneb. cbn [negb].
  rewrite (bind_ok _ _ _ _ _
             (update_account_token_ok env _ _ _ (after_statement _ _ w) Hf1)).
  cbn [ret negb]. unfold check_quota.
  match goal with
  | |- context [bind (get_account_by_email env ?m) ?k ?w0] =>
      rewrite (bind_ok _ _ _ _ _ (get_account_by_email_ok env m w0 Hf2))
  end.
  cbn [accounts ticks after_statement].
  rewrite select_after_update, Hrow;
    [|intros r0; destruct (truthy_str new_refresh_token); reflexivity].
  cbn [option_map].
  assert (Htok : id_token
            ((if truthy_str new_refresh_token
              then set_tokens new_id_token (str_of new_refresh_token)
                     (datetime_now env (S (ticks w)))
              else set_id_token new_id_token (datetime_now env (S (ticks w)))) row)
            = new_id_token).
  { destruct (truthy_str new_refresh_token); reflexivity. }
  rewrite Htok, Hneb.
  rewrite (bind_ok _ _ _ _ _ (get_request_limit_call env _ _ Hne)).
  destruct (quota_answer env _ _) as [l u remaining|err];
    [destruct (num_lt_int remaining config.MIN_QUOTA_THRESHOLD)|];
    try run_status_write;
    (do 3 eexists; split; [reflexivity|];
     cbn [log after_statement]; rewrite <- !app_assoc; cbn [app];
     reflexivity).
Qed.

(** X20. With no active row the pass ends after the listing: it returns
    without counters, and calls, writes and sleeps nothing. *)
Theorem nothing_to_verify (w : World) :
  db_fault env (ticks w) = None ->
  sql_select_status "active" (accounts w) = [] ->
  verify_accounts env w
    = (inr None, after_statement (EvGetAll (Some "active")) (accounts w) w).
Proof.
  intros Hfault Hnone. unfold verify_accounts.
  rewrite (bind_ok _ _ _ _ _ (get_all_accounts_active_ok env w Hfault)), Hnone.
  reflexivity.
Qed.

(** X21. If the listing of the active rows meets a storage fault, the pass
    raises that exception at once: it touches no row and makes no call. *)
Theorem listing_fault_aborts_pass (w : World) (e : PyExn) :
  db_fault env (ticks w) = Some e ->
  verify_accounts env w
    = (inl e, after_statement (EvGetAll (Some "active")) (accounts w) w).
Proof.
  intros Hfault. unfold verify_accounts.
  rewrite (bind_raises _ _ _ _ _ (get_all_accounts_fault env _ w e Hfault)).
  reflexivity.
Qed.

End PassEdges.

Lemma quota_is_checked_with_new_token_witness :
  is_token_expired_at granting_env (time_time granting_env (ticks stale_world))
    (id_token stale_account) is_token_expired_default_buffer = true /\
  can_refresh_token_at (datetime_now granting_env (ticks stale_world))
    stale_account = true /\
  exists r w' rest,
    verify_try granting_env stale_account (mkCounts 0 0 0) stale_world = (r, w') /\
    log w' = ([] ++ [EvRefreshPost "secret";
                     EvUpdateToken "stale@example.com" "renewed" None;
                     EvGetByEmail "stale@example.com";
                     EvQuotaPost "renewed"] ++ rest)%list.
Proof.
  split; [reflexivity|]. split; [reflexivity|].
  refine (quota_is_checked_with_new_token granting_env stale_account stale_account
            (mkCounts 0 0 0) stale_world "renewed" None
            eq_refl eq_refl eq_refl _ eq_refl eq_refl eq_refl).
  discriminate.
Defined.

Lemma nothing_to_verify_witness :
  db_fault (quiet_env 0) (ticks purge_world) = None /\
  sql_select_status "active" (accounts purge_world) = [] /\
  verify_accounts (quiet_env 0) purge_world
    = (inr None, mkWorld [row_10_days; row_3_days] 1 [EvGetAll (Some "active")]).
Proof.
  split; [reflexivity|]. split; [reflexivity|].
  exact (nothing_to_verify (quiet_env 0) purge_world eq_refl eq_refl).
Defined.

Lemma listing_fault_aborts_pass_witness :
  db_fault locked_env 1 = Some (OperationalError "database is locked") /\
  verify_accounts locked_env (mkWorld [fresh_account] 1 [])
    = (inl (OperationalError "database is locked"),
       mkWorld [fresh_account] 2 [EvGetAll (Some "active")]).
Proof.
  split; [reflexivity|].
  exact (listing_fault_aborts_pass locked_env (mkWorld [fresh_account] 1 [])
           (OperationalError "database is locked") eq_refl).
Defined.

(** ** Counting *)

Section Counting.

Variable env : Env.

Ltac break_match H :=
  repeat match type of H with
         | context [match ?x with _ => _ end] =>
             destruct x eqn:?; try discriminate H
         end.

Lemma check_quota_counts (account : Account) (c c1 : Counts) (x : LoopExit)
    (w w1 : World) :
  check_quota env account c w = (inr (c1, x), w1) ->
  total_count c1 = total_count c + 1.
Proof.
  unfold check_quota, bind, ret. intros H. break_match H.
  all: injection H as <- _ _; unfold total_count; cbn; lia.
Qed.

Lemma verify_try_counts (account : Account) (c c1 : Counts) (x : LoopExit)
    (w w1 : World) :
  verify_try env account c w = (inr (c1, x), w1) ->
  total_count c1 = total_count c + 1.
Proof.
  unfold verify_try, bind. intros H.
  destruct (refresh_account_if_needed env account w) as [[e|valid] w0];
    [discriminate H|].
  destruct valid; cbn [negb] in H.
  - exact (check_quota_counts _ _ _ _ _ _ H).
  - injection H as <- _ _. unfold total_count. cbn. lia.
Qed.

Lemma verify_account_counts (account : Account) (c c' : Counts) (w w' : World) :
  verify_account env account c w = (inr c', w') ->
  total_count c' = total_count c + 1.
Proof.
  unfold verify_account, try_except, verify_except. unfold bind at 1.
  destruct (verify_try env account c w) as [[e|[c1 x]] w1] eqn:Htry.
  - unfold bind at 1.
    destruct (update_account_status env (email account) "expired" w1)
      as [[e'|[]] w2]; [discriminate|].
    cbn. intros H. injection H as <- _. unfold total_count. cbn. lia.
  - apply verify_try_counts in Htry.
    destruct x; cbn; intros H; injection H as <- _; exact Htry.
Qed.

Lemma verify_loop_counts (accs : list Account) (c c' : Counts) (w w' : World) :
  verify_loop env accs c w = (inr c', w') ->
  total_count c' = total_count c + Z.of_nat (List.length accs).
Proof.
  revert c w. induction accs as [|a rest IH]; intros c w; cbn [verify_loop].
  - intros H. injection H as <- _. cbn. lia.
  - unfold bind at 1.
    destruct (verify_account env a c w) as [[e|c1] w1] eqn:Hone;
      [discriminate|].
    intros H. apply IH in H. apply verify_account_counts in Hone.
    cbn [List.length]. lia.
Qed.

(** X22. A pass that runs to its end counts every credential it listed
    exactly once: the healthy, low-quota and failed counters add up to the
    number of rows that were active when the pass began. *)
Theorem counters_add_up (w w' : World) (c : Counts) :
  verify_accounts env w = (inr (Some c), w') ->
  healthy_count c + low_quota_count c + failed_count c
    = count_status "active" (accounts w).
Proof.
  unfold verify_accounts. unfold bind at 1.
  destruct (db_fault env (ticks w)) as [e|] eqn:Hfault.
  - rewrite (get_all_accounts_fault env _ w e Hfault). discriminate.
  - rewrite (get_all_accounts_active_ok env w Hfault).
    unfold count_status.
    destruct (sql_select_status "active" (accounts w)) as [|a rest];
      [discriminate|].
    unfold bind.
    destruct (verify_loop env (a :: rest) (mkCounts 0 0 0) _)
      as [[e|c'] w1] eqn:Hloop; [discriminate|].
    intros H. injection H as <- _.
    apply verify_loop_counts in Hloop. exact Hloop.
Qed.

End Counting.

Lemma counters_add_up_witness :
  verify_accounts low_quota_env fresh_world
    = (inr (Some (mkCounts 0 1 0)), snd (verify_accounts low_quota_env fresh_world)) /\
  0 + 1 + 0 = count_status "active" (accounts fresh_world).
Proof.
  split; [reflexivity|].
  exact (counters_add_up low_quota_env fresh_world
           (snd (verify_accounts low_quota_env fresh_world)) (mkCounts 0 1 0)
           eq_refl).
Defined.

(** ** The schedule of a cycle *)

Section Schedule.

Variable env : Env.
Variable P : Event -> Prop.

Lemma emits_same {A : Type} (m : M A) :
  (forall w, log (snd (m w)) = log w) -> emits P m.
Proof.
  intros H w. exists []. rewrite H, app_nil_r. split; [reflexivity|constructor].
Qed.

Lemma emits_emit (ev : Event) : P ev -> emits P (emit ev).
Proof.
  intros Hev w. exists [ev]. split; [reflexivity|].
  constructor; [exact Hev|constructor].
Qed.

Lemma emits_bind {A B : Type} (m : M A) (k : A -> M B) :
  emits P m -> (forall a, emits P (k a)) -> emits P (bind m k).
Proof.
  intros Hm Hk w. unfold bind. destruct (Hm w) as [e1 [Hl1 Hf1]].
  destruct (m w) as [[e|a] w1]; cbn [snd] in *.
  - exists e1. split; assumption.
  - destruct (Hk a w1) as [e2 [Hl2 Hf2]]. exists (e1 ++ e2)%list. split.
    + rewrite Hl2, Hl1, app_assoc. reflexivity.
    + apply Forall_app. split; assumption.
Qed.

Lemma emits_try_except {A : Type} (m : M A) (h : PyExn -> M A) :
  emits P m -> (forall e, emits P (h e)) -> emits P (try_except m h).
Proof.
  intros Hm Hh w. unfold try_except. destruct (Hm w) as [e1 [Hl1 Hf1]].
  destruct (m w) as [[e|a] w1]; cbn [snd] in *.
  - destruct (Hh e w1) as [e2 [Hl2 Hf2]]. exists (e1 ++ e2)%list. split.
    + rewrite Hl2, Hl1, app_assoc. reflexivity.
    + apply Forall_app. split; assumption.
  - exists e1. split; assumption.
Qed.

Lemma emits_sql_statement (ev : Event) :
  P ev -> emits P (sql_statement env ev).
Proof.
  intros Hev. unfold sql_statement.
  apply emits_bind; [apply emits_emit; exact Hev|].
  intros _. apply emits_bind; [apply emits_same; reflexivity|].
  intros t. destruct (db_fault env t); apply emits_same; reflexivity.
Qed.

End Schedule.

Section CycleSchedule.

Variable env : Env.
Variable cycle : Z.

(** Closes a goal [emits (cycle_event cycle) m] for a computation built
    from the primitives of [M]. *)
Ltac scheduled :=
  repeat first
    [ match goal with
      | H : forall _, _ |- _ => apply H
      | |- emits _ (if ?b then _ else _) => destruct b
      | |- emits _ (match ?x with _ => _ end) => destruct x
      end
    | apply emits_bind; [|intro]
    | apply emits_try_except; [|intro]
    | apply emits_emit; first [exact I | reflexivity]
    | apply emits_same; intro; reflexivity ].

Lemma emits_update_account_status (mail st : string) :
  emits (cycle_event cycle) (update_account_status env mail st).
Proof. unfold update_account_status, sql_statement. scheduled. Qed.

Lemma emits_refresh_account_if_needed (account : Account) :
  emits (cycle_event cycle) (refresh_account_if_needed env account).
Proof.
  pose proof emits_update_account_status as Hstatus.
  unfold refresh_account_if_needed, is_token_expired, can_refresh_token,
    refresh_firebase_token, update_account_token, sql_statement.
  scheduled.
Qed.

Lemma emits_check_quota (account : Account) (c : Counts) :
  emits (cycle_event cycle) (check_quota env account c).
Proof.
  pose proof emits_update_account_status as Hstatus.
  unfold check_quota, get_account_by_email, _get_request_limit, sql_statement.
  scheduled.
Qed.

Lemma emits_verify_account (account : Account) (c : Counts) :
  emits (cycle_event cycle) (verify_account env account c).
Proof.
  pose proof emits_update_account_status as Hstatus.
  pose proof emits_refresh_account_if_needed as Hrefresh.
  pose proof emits_check_quota as Hquota.
  unfold verify_account, verify_try, verify_except, asyncio_sleep.
  scheduled.
Qed.

Lemma emits_verify_loop (accs : list Account) (c : Counts) :
  emits (cycle_event cycle) (verify_loop env accs c).
Proof.
  revert c. induction accs as [|a rest IH]; intros c; cbn [verify_loop].
  - scheduled.
  - apply emits_bind; [apply emits_verify_account|].
    intros c'. apply IH.
Qed.

Lemma emits_verify_accounts :
  emits (cycle_event cycle) (verify_accounts env).
Proof.
  pose proof emits_verify_loop as Hloop.
  unfold verify_accounts, get_all_accounts, sql_statement.
  scheduled.
Qed.

(** X23. Inside cycle number [cycle] a purge is run only if [cycle] is a
    multiple of 10, and then with a window of 7 days; the only sleeps inside
    a cycle are pacing delays of one second; the running flag is not read. *)
Theorem cycle_follows_schedule (w : World) :
  exists evs : list Event,
    log (snd (maintenance_cycle env cycle w)) = (log w ++ evs)%list /\
    Forall (cycle_event cycle) evs.
Proof.
  revert w. change (emits (cycle_event cycle) (maintenance_cycle env cycle)).
  unfold maintenance_cycle.
  apply emits_try_except; [|intros e; apply emits_same; reflexivity].
  apply emits_bind.
  { unfold check_pool_health, get_statistics, sql_statement. scheduled. }
  intros _. apply emits_bind; [apply emits_verify_accounts|].
  intros _. destruct (cycle mod 10 =? 0) eqn:Hten;
    [|apply emits_same; reflexivity].
  apply Z.eqb_eq in Hten.
  unfold cleanup, cleanup_expired_accounts.
  apply emits_bind; [|intro; apply emits_same; reflexivity].
  apply emits_bind.
  { apply emits_sql_statement. split; [reflexivity|exact Hten]. }
  intros now. apply emits_bind; [apply emits_same; reflexivity|].
  intros t. unfold sql_delete_expired.
  apply emits_bind; [apply emits_same; reflexivity|].
  intro. apply emits_same; reflexivity.
Qed.

End CycleSchedule.

(** ** The loop as a whole *)

Section LoopAsAWhole.

Variable env : Env.
Variable running : nat -> bool.

(** X24. The maintenance loop lets no exception out: however long it runs,
    whatever the services and the storage do, it ends normally or is still
    running. *)
Theorem maintenance_loop_never_raises (fuel : nat) (cycle : Z) (w : World) :
  exists finished w',
    maintenance_loop_from env running fuel cycle w = (inr finished, w').
Proof.
  revert cycle w. induction fuel as [|fuel IH]; intros cycle w.
  - do 2 eexists. reflexivity.
  - destruct (running (ticks w)) eqn:Hflag.
    + destruct (loop_iterates env running fuel cycle w Hflag)
        as [w1 [_ [_ Hloop]]].
      rewrite Hloop. apply IH.
    + rewrite (loop_leaves env running fuel cycle w Hflag).
      do 2 eexists. reflexivity.
Qed.

(** X25. While the running flag stays up the loop does not end on its own:
    after any number of iterations it is still going, and each iteration
    has taken at least the tick of its sleep. *)
Theorem maintenance_loop_runs_while_flag_up :
  (forall t, running t = true) ->
  forall (fuel : nat) (cycle : Z) (w : World),
  exists w',
    maintenance_loop_from env running fuel cycle w = (inr false, w') /\
    (ticks w + fuel <= ticks w')%nat.
Proof.
  intros Hup fuel. induction fuel as [|fuel IH]; intros cycle w.
  - eexists. split; [reflexivity|]. cbn. lia.
  - destruct (loop_iterates env running fuel cycle w (Hup (ticks w)))
      as [w1 [_ [[Hticks _] Hloop]]].
    rewrite Hloop.
    destruct (IH (cycle + 1)
                (after_statement (EvSleep config.MAINTENANCE_CHECK_INTERVAL)
                                 (accounts w1) w1)) as [w' [Hrun Hle]].
    exists w'. split; [exact Hrun|].
    cbn [ticks after_statement flag_read] in *. lia.
Qed.

End LoopAsAWhole.

Lemma maintenance_loop_runs_while_flag_up_witness :
  (forall t, always_running t = true) /\
  exists w',
    maintenance_loop_from (quiet_env 0) always_running 3 0 empty_world
      = (inr false, w') /\
    (ticks empty_world + 3 <= ticks w')%nat.
Proof.
  split; [intros t; reflexivity|].
  exact (maintenance_loop_runs_while_flag_up (quiet_env 0) always_running
           (fun t => eq_refl) 3%nat 0 empty_world).
Defined.

(** ** Demotion and purge *)

Section Demotion.

Variable env : Env.

(** X26. Once an e-mail has been written as [expired], the next listing of
    the active rows holds no row of that e-mail. *)
Theorem demoted_is_no_longer_listed (mail : string) (w : World) :
  db_fault env (ticks w) = None ->
  db_fault env (S (ticks w)) = None ->
  exists w1 rows w2,
    update_account_status env mail "expired" w = (inr tt, w1) /\
    get_all_accounts env (Some "active") w1 = (inr rows, w2) /\
    forall r, In r rows -> email r <> mail.
Proof.
  intros Hf1 Hf2.
  do 3 eexists. split; [apply (update_account_status_ok env mail _ w Hf1)|].
  split; [apply (get_all_accounts_active_ok env (after_statement _ _ w) Hf2)|].
  cbn [accounts after_statement]. intros r Hin.
  unfold sql_select_status in Hin. apply filter_In in Hin.
  destruct Hin as [Hin Hactive]. apply String.eqb_eq in Hactive.
  unfold sql_update in Hin. apply in_map_iff in Hin.
  destruct Hin as [r0 [Hr _]].
  destruct (email r0 =? mail)%string eqn:Heq.
  - subst r. cbn in Hactive. discriminate Hactive.
  - subst r. apply String.eqb_neq. exact Heq.
Qed.

(** X27. A purge keeps every row that was never refreshed, expired or not,
    and every row that is not [expired], whatever the retention window. *)
Theorem never_refreshed_survives_purge (days : Z) (w : World) (r : Account) :
  In r (accounts w) ->
  last_refresh_time r = None \/ status r <> "expired" ->
  In r (accounts (snd (cleanup_expired_accounts env days w))).
Proof.
  intros Hin Hkeep.
  unfold cleanup_expired_accounts, sql_statement, bind, emit, advance,
    get_table, put_table, ret, raise, sql_delete_expired.
  cbn. destruct (db_fault env (ticks w)); cbn; [exact Hin|].
  apply filter_In. split; [exact Hin|].
  apply negb_true_iff. unfold purge_condition.
  destruct Hkeep as [Hnull | Hstatus].
  - rewrite Hnull. apply andb_false_r.
  - apply String.eqb_neq in Hstatus. rewrite Hstatus. reflexivity.
Qed.

End Demotion.

Lemma demoted_is_no_longer_listed_witness :
  db_fault (quiet_env 0) (ticks one_of_each) = None /\
  db_fault (quiet_env 0) (S (ticks one_of_each)) = None /\
  exists w1 rows w2,
    update_account_status (quiet_env 0) "fresh@example.com" "expired" one_of_each
      = (inr tt, w1) /\
    get_all_accounts (quiet_env 0) (Some "active") w1 = (inr rows, w2) /\
    forall r, In r rows -> email r <> "fresh@example.com".
Proof.
  split; [reflexivity|]. split; [reflexivity|].
  exact (demoted_is_no_longer_listed (quiet_env 0) "fresh@example.com"
           one_of_each eq_refl eq_refl).
Defined.

Lemma never_refreshed_survives_purge_witness :
  In blocked_row (accounts one_of_each) /\
  In blocked_row
     (accounts (snd (cleanup_expired_accounts (quiet_env purge_now) 0 one_of_each))).
Proof.
  assert (Hin : In blocked_row (accounts one_of_each)).
  { right. right. left. reflexivity. }
  split; [exact Hin|].
  exact (never_refreshed_survives_purge (quiet_env purge_now) 0 one_of_each
           blocked_row Hin (or_introl eq_refl)).
Defined.
